(** * hue-to-govee: colour conversion and dynamic-scene playback

    A shallow embedding of the colour engine ([ColorToRGB], [coordsToRGB],
    [ctToRGB], [isInGamut], [correctToGamut]) and of the [SceneController]
    of the bridge, together with the properties its specification states;
    and of what is around them: the Govee client, the queries of the Hue
    client and its search for the bridge, the configuration and the
    synchronization loops of [main], with further properties of the code.

    Numbers are modelled the way the Go program has them:
    - [float64] is Rocq's primitive binary64 [float]: [+], [-], [*], [/],
      [sqrt] and the comparisons are the IEEE 754 operations, evaluated
      one at a time (no fused multiply-add);
    - [int] is a 64-bit two's-complement integer, carried as a [Z] with the
      wrap-around written out ([wrap64]);
    - what Go leaves to the implementation or to its [math] package
      (the result of converting a NaN or an out-of-range float to an
      integer, the values of [math.Pow] and [math.Log] away from their
      documented special cases) is a field of a [Runtime] record, over
      which every statement is quantified. *)

From Stdlib Require Import ZArith Lia Bool List Floats.
From stdpp Require Import base option list gmap strings.

Set Warnings "-inexact-float,-clear-no-such-hyp".
Local Open Scope Z_scope.

(** ** Go's numbers *)

Module GoNum.

(** The Go implementation under the program. *)
Record Runtime := {
  (** [math.Pow x y] where none of its documented special cases applies *)
  pow_core : float -> float -> float;
  (** [math.Log x] for finite [x > 0] *)
  log_core : float -> float;
  (** [int(f)] when the truncation of [f] does not fit an [int]
      ("the result value is implementation-dependent") *)
  int_unrepresentable : float -> Z;
}.

Definition wrap64 (z : Z) : Z := (z + 2 ^ 63) mod 2 ^ 64 - 2 ^ 63.

Definition in_int64 (z : Z) : bool := (- 2 ^ 63 <=? z) && (z <? 2 ^ 63).

(** The integer part (towards zero) of a finite float; [None] for an
    infinity or a NaN. *)
Definition trunc_sf (f : spec_float) : option Z :=
  match f with
  | S754_zero _ => Some 0
  | S754_finite s m e =>
      let mag := match e with
                 | Z0 => Zpos m
                 | Zpos p => Z.shiftl (Zpos m) (Zpos p)
                 | Zneg p => Z.shiftr (Zpos m) (Zpos p)
                 end in
      Some (if s then - mag else mag)
  | S754_infinity _ | S754_nan => None
  end.

Definition trunc_float (f : float) : option Z := trunc_sf (Prim2SF f).

(** The conversion [int(f)] of a [float64]. *)
Definition int_of_float (rt : Runtime) (f : float) : Z :=
  match trunc_float f with
  | Some z => if in_int64 z then z else wrap64 (int_unrepresentable rt f)
  | None => wrap64 (int_unrepresentable rt f)
  end.

(** The conversion [float64(n)] of an [int]: round to nearest, ties to
    even. *)
Definition float_of_int (n : Z) : float :=
  SF2Prim (binary_normalize prec emax n 0 false).

(** Integer division [a / b] of two [int]s: truncated towards zero, a
    run-time panic when [b] is zero. *)
Definition int_div (a b : Z) : option Z :=
  if b =? 0 then None else Some (wrap64 (Z.quot a b)).

Definition is_pos_inf (x : float) : bool := (x =? infinity)%float.
Definition is_neg_inf (x : float) : bool := (x =? neg_infinity)%float.

(** [math.Max] and [math.Min], with the special cases of their
    documentation. *)
Definition math_Max (x y : float) : float :=
  if is_pos_inf x || is_pos_inf y then infinity
  else if is_nan x || is_nan y then nan
  else if (x =? 0)%float && (x =? y)%float then (if get_sign x then y else x)
  else if (y <? x)%float then x else y.

Definition math_Min (x y : float) : float :=
  if is_neg_inf x || is_neg_inf y then neg_infinity
  else if is_nan x || is_nan y then nan
  else if (x =? 0)%float && (x =? y)%float then (if get_sign x then x else y)
  else if (x <? y)%float then x else y.

Definition math_Sqrt (x : float) : float := sqrt x.

(** [math.Pow]: the special cases its documentation fixes that the
    program can meet, in the order the library tests them; every other
    argument pair is the runtime's. *)
Definition math_Pow (rt : Runtime) (x y : float) : float :=
  if (y =? 0)%float || (x =? 1)%float then 1%float
  else if (y =? 1)%float then x
  else if is_nan x || is_nan y then nan
  else if is_pos_inf x then (if (y <? 0)%float then 0%float else infinity)
  else pow_core rt x y.

(** [math.Log]: NaN and +Inf are returned as they are, a negative
    argument gives NaN, a zero gives -Inf. *)
Definition math_Log (rt : Runtime) (x : float) : float :=
  if is_nan x || is_pos_inf x then x
  else if (x <? 0)%float then nan
  else if (x =? 0)%float then neg_infinity
  else log_core rt x.

End GoNum.
Export GoNum.

(** ** The data model (package hue, types)

    A field [F] of a struct [S] is the projection [S_F]. *)

Record Coords := mkCoords { Coords_X : float; Coords_Y : float }.

Record On := mkOn { On_On : bool }.

Record Dimming := mkDimming { Dimming_Brightness : float }.

Record ColorTemperature := mkColorTemperature {
  ColorTemperature_Mirek : Z;
  ColorTemperature_MirekValid : bool;
}.

Record Gamut := mkGamut {
  Gamut_Red : Coords;
  Gamut_Green : Coords;
  Gamut_Blue : Coords;
}.

Definition GamutType := string.
Definition GamutTypeA : GamutType := "A".
Definition GamutTypeB : GamutType := "B".
Definition GamutTypeC : GamutType := "C".

Record Color := mkColor {
  Color_XY : Coords;
  Color_Gamut : Gamut;
  Color_GamutType : GamutType;
}.

Definition DynamicsStatus := string.
Definition DynamicsStatusActive : DynamicsStatus := "dynamic_palette".
Definition DynamicsStatusInactive : DynamicsStatus := "none".

Record Dynamics := mkDynamics { Dynamics_Status : DynamicsStatus }.

Record Light := mkLight {
  Light_On : On;
  Light_Dimming : Dimming;
  Light_ColorTemperature : ColorTemperature;
  Light_Color : Color;
  Light_Dynamics : Dynamics;
}.

(** The zero value [Gamut{}]. *)
Definition Gamut_zero : Gamut :=
  mkGamut (mkCoords 0 0) (mkCoords 0 0) (mkCoords 0 0).

(** What a call returns: its results, or a run-time panic. *)
Inductive outcome (A : Type) : Type :=
  | Returns (a : A)
  | Panics.
Arguments Returns {A} a.
Arguments Panics {A}.

(** ** The colour engine *)

Definition defaultGamut : Gamut :=
  mkGamut (mkCoords 0.6915 0.3083) (mkCoords 0.1700 0.7000) (mkCoords 0.1532 0.0475).

Definition gamutMap : gmap GamutType Gamut :=
  <[GamutTypeA := mkGamut (mkCoords 0.704 0.296) (mkCoords 0.2151 0.7106) (mkCoords 0.138 0.08)]>
  (<[GamutTypeB := mkGamut (mkCoords 0.675 0.322) (mkCoords 0.409 0.518) (mkCoords 0.167 0.04)]>
  (<[GamutTypeC := mkGamut (mkCoords 0.6915 0.3083) (mkCoords 0.1700 0.7000) (mkCoords 0.1532 0.0475)]>
   ∅)).

Definition clamp (x minF maxF : float) : float :=
  if (x <? minF)%float then minF
  else if (maxF <? x)%float then maxF
  else x.

(** [isValidGamut]: not all six coordinates are zero. *)
Definition isValidGamut (gamut : Gamut) : bool :=
  negb ((Coords_X (Gamut_Red gamut) =? 0)%float && (Coords_Y (Gamut_Red gamut) =? 0)%float &&
        (Coords_X (Gamut_Green gamut) =? 0)%float && (Coords_Y (Gamut_Green gamut) =? 0)%float &&
        (Coords_X (Gamut_Blue gamut) =? 0)%float && (Coords_Y (Gamut_Blue gamut) =? 0)%float).

(** [isInGamut]: the barycentric test. [a >= 0] is [0 <= a]. *)
Definition isInGamut (point : Coords) (gamut : Gamut) : bool :=
  let v1x := Coords_X (Gamut_Red gamut) in
  let v1y := Coords_Y (Gamut_Red gamut) in
  let v2x := Coords_X (Gamut_Green gamut) in
  let v2y := Coords_Y (Gamut_Green gamut) in
  let v3x := Coords_X (Gamut_Blue gamut) in
  let v3y := Coords_Y (Gamut_Blue gamut) in
  let px := Coords_X point in
  let py := Coords_Y point in
  (let denominator := (v2y - v3y) * (v1x - v3x) + (v3x - v2x) * (v1y - v3y) in
   let a := ((v2y - v3y) * (px - v3x) + (v3x - v2x) * (py - v3y)) / denominator in
   let b := ((v3y - v1y) * (px - v3x) + (v1x - v3x) * (py - v3y)) / denominator in
   let c := 1 - a - b in
   (0 <=? a) && (a <=? 1) && (0 <=? b) && (b <=? 1) && (0 <=? c) && (c <=? 1))%float.

(** The closure [findClosestPoint] of [correctToGamut]: the point of the
    segment [p1 p2] nearest to [target], and its distance. *)
Definition findClosestPoint (p1 p2 target : Coords) : Coords * float :=
  (let dx := Coords_X p2 - Coords_X p1 in
   let dy := Coords_Y p2 - Coords_Y p1 in
   let lenSq := dx * dx + dy * dy in
   if lenSq <? 1e-10 then
     let dist := math_Sqrt ((Coords_X target - Coords_X p1) * (Coords_X target - Coords_X p1)
                            + (Coords_Y target - Coords_Y p1) * (Coords_Y target - Coords_Y p1)) in
     (p1, dist)
   else
     let t := ((Coords_X target - Coords_X p1) * dx + (Coords_Y target - Coords_Y p1) * dy) / lenSq in
     let t := math_Max 0 (math_Min 1 t) in
     let projX := Coords_X p1 + t * dx in
     let projY := Coords_Y p1 + t * dy in
     let dist := math_Sqrt ((Coords_X target - projX) * (Coords_X target - projX)
                            + (Coords_Y target - projY) * (Coords_Y target - projY)) in
     (mkCoords projX projY, dist))%float.

(** The three edges, in the order the loop of [correctToGamut] visits
    them. *)
Definition gamut_edges (gamut : Gamut) : list (Coords * Coords) :=
  [ (Gamut_Red gamut, Gamut_Green gamut);
    (Gamut_Green gamut, Gamut_Blue gamut);
    (Gamut_Blue gamut, Gamut_Red gamut) ].

(** One turn of the loop over the edges: the state is
    [(closestDist, closestPoint)]. *)
Definition closest_step (point : Coords) (st : float * Coords) (edge : Coords * Coords)
  : float * Coords :=
  let '(projPoint, dist) := findClosestPoint (fst edge) (snd edge) point in
  if (dist <? fst st)%float then (dist, projPoint) else st.

Definition correctToGamut (point : Coords) (gamut : Gamut) : Coords :=
  if isInGamut point gamut then point
  else snd (fold_left (closest_step point) (gamut_edges gamut) (1e10%float, point)).

(** The applicable gamut of [coordsToRGB] (its local [colorGamut]). *)
Definition colorGamut (gamutType : GamutType) (gamut : Gamut) : Gamut :=
  if isValidGamut gamut then gamut
  else match gamutMap !! gamutType with
       | Some g => g
       | None => defaultGamut
       end.

(** The closure [toGamma] of [coordsToRGB]: the sRGB transfer function.
    The exponent [1.0 / 2.4] is a constant of the program, the binary64
    number nearest to 5/12; the division below gives the same number. *)
Definition toGamma (rt : Runtime) (v : float) : float :=
  (if v <=? 0.0031308 then 12.92 * v
   else 1.055 * math_Pow rt v (1.0 / 2.4) - 0.055)%float.

(** The linear sRGB components of a chromaticity at a brightness: the
    part of [coordsToRGB] from [z] to [bLin]. *)
Definition linearRGB (correctedCoords : Coords) (bri : Z) : float * float * float :=
  (let x := Coords_X correctedCoords in
   let y := Coords_Y correctedCoords in
   let z := 1.0 - x - y in
   let bigY := float_of_int bri / 100.0 in
   let bigX := (bigY / y) * x in
   let bigZ := (bigY / y) * z in
   let rLin := bigX * 3.2406 + bigY * -1.5372 + bigZ * -0.4986 in
   let gLin := bigX * -0.9689 + bigY * 1.8758 + bigZ * 0.0415 in
   let bLin := bigX * 0.0557 + bigY * -0.2040 + bigZ * 1.0570 in
   (rLin, gLin, bLin))%float.

(** One channel of the result: [int(clamp(toGamma(v)*255, 0, 255))]. *)
Definition gammaChannel (rt : Runtime) (v : float) : Z :=
  int_of_float rt (clamp (toGamma rt v * 255) 0 255).

(** The body of [coordsToRGB] after the gamut is chosen. *)
Definition xyBriToRGB (rt : Runtime) (correctedCoords : Coords) (bri : Z) : Z * Z * Z :=
  let '(rLin, gLin, bLin) := linearRGB correctedCoords bri in
  (gammaChannel rt rLin, gammaChannel rt gLin, gammaChannel rt bLin).

Definition coordsToRGB (rt : Runtime) (x y : float) (bri : Z)
    (gamutType : GamutType) (gamut : Gamut) : Z * Z * Z :=
  xyBriToRGB rt (correctToGamut (mkCoords x y) (colorGamut gamutType gamut)) bri.

(** [ctToRGB]: the black-body approximation. *)
Definition ctToRGB (rt : Runtime) (kelvin bri : Z) : Z * Z * Z :=
  (let temp := float_of_int kelvin / 100.0 in
   let r :=
     if temp <=? 66 then 255
     else
       let r := temp - 60 in
       let r := 329.698727446 * math_Pow rt r (-0.1332047592) in
       let r := if r <? 0 then 0 else r in
       if 255 <? r then 255 else r in
   let g :=
     if temp <=? 66 then 99.4708025861 * math_Log rt temp - 161.1195681661
     else 288.1221695283 * math_Pow rt (temp - 60) (-0.0755148492) in
   let g := if g <? 0 then 0 else g in
   let g := if 255 <? g then 255 else g in
   let b :=
     if 66 <=? temp then 255
     else if temp <=? 19 then 0
     else
       let b := temp - 10 in
       let b := 138.5177312231 * math_Log rt b - 305.0447927307 in
       let b := if b <? 0 then 0 else b in
       if 255 <? b then 255 else b in
   let brightness := float_of_int bri / 100.0 in
   let r := r * brightness in
   let g := g * brightness in
   let b := b * brightness in
   (int_of_float rt r, int_of_float rt g, int_of_float rt b))%float.

(** [ColorToRGB]. [fixedBrightness] is the [*int] of the configuration,
    [None] for nil. *)
Definition ColorToRGB (rt : Runtime) (light : Light) (fixedBrightness : option Z)
  : outcome (Z * Z * Z) :=
  if negb (On_On (Light_On light)) then Returns (0, 0, 0)
  else
    let brightness := int_of_float rt (Dimming_Brightness (Light_Dimming light)) in
    let brightness := match fixedBrightness with
                      | Some fb => fb
                      | None => brightness
                      end in
    if ColorTemperature_MirekValid (Light_ColorTemperature light) then
      match int_div 1000000 (ColorTemperature_Mirek (Light_ColorTemperature light)) with
      | None => Panics
      | Some kelvin => Returns (ctToRGB rt kelvin brightness)
      end
    else if negb (Coords_X (Color_XY (Light_Color light)) =? 0)%float
            || negb (Coords_Y (Color_XY (Light_Color light)) =? 0)%float then
      Returns (coordsToRGB rt
                 (Coords_X (Color_XY (Light_Color light)))
                 (Coords_Y (Color_XY (Light_Color light)))
                 brightness
                 (Color_GamutType (Light_Color light))
                 (Color_Gamut (Light_Color light)))
    else
      let brightnessValue := Z.quot (wrap64 (brightness * 255)) 100 in
      Returns (brightnessValue, brightnessValue, brightnessValue).

(** ** Scenes (package hue, types) *)

(** The fields [Action.On] and [Action.Dimming] of the source. *)
Record SceneAction := mkSceneAction {
  SceneAction_On : On;
  SceneAction_Dimming : Dimming;
}.

(** The field [Color.XY] of the source is [PaletteColor_XY]. *)
Record PaletteColor := mkPaletteColor {
  PaletteColor_XY : Coords;
  PaletteColor_Dimming : Dimming;
}.

Record PaletteColorTemp := mkPaletteColorTemp {
  PaletteColorTemp_ColorTemperature : ColorTemperature;
  PaletteColorTemp_Dimming : Dimming;
}.

(** The field [Dimming] of the source, a list of untyped JSON values
    that nothing reads, is left out. *)
Record Palette := mkPalette {
  Palette_Color : list PaletteColor;
  Palette_ColorTemperature : list PaletteColorTemp;
}.

Record SceneStatus := mkSceneStatus {
  SceneStatus_Active : string;
  SceneStatus_LastRecall : string;
}.

Record Group := mkGroup { Group_ID : string; Group_Type : string }.

Record Scene := mkScene {
  Scene_ID : string;
  Scene_Palette : Palette;
  Scene_Speed : float;
  Scene_Status : SceneStatus;
  Scene_Group : Group;
  Scene_Actions : list SceneAction;
}.

(** ** The scene controller

    The state of the controller and of the goroutines it starts is a
    [World]; the driver's calls and the steps of the loops are its
    [Event]s. A call is one step: [SetScene] takes the mutex twice, in
    [StopScene] and for the insertion, and the model runs both without
    another call in between, as one driver goroutine per device does. *)

Module SceneController.

(** What a playback loop does to the outside: the two device commands
    it hands to the Govee client, and the waits between palette
    entries (in nanoseconds, a [time.Duration]). *)
Inductive Effect :=
  | SetColor (deviceID : string) (r g b : Z)
  | SetBrightness (deviceID : string) (value : Z)
  | Sleep (d : Z).

(** Where the goroutine of [runDynamicScene] stands. *)
Inductive pc :=
  | AtEntry                (* before the palette check *)
  | AtLoopTop              (* the outer select *)
  | AtColor (i : nat)      (* the inner select, at palette index [i] *)
  | AtSetColor (i : nat)   (* past the inner select, before the call of SetColor *)
  | AtSetBrightness (i : nat)   (* before the call of SetBrightness *)
  | AtWait (i : nat)       (* the select on ctx.Done and time.After *)
  | Finished.              (* returned *)

(** A context made by [SetScene] with the goroutine started on it; a
    context is named by its position in [tasks]. [Task_cancelled] is
    the state of the context: its cancel function was called. *)
Record Task := mkTask {
  Task_device : string;
  Task_scene : Scene;
  Task_cancelled : bool;
  Task_pc : pc;
}.

Record World := mkWorld {
  activeScenes : gmap string nat;
  tasks : list Task;
  trace : list (nat * Effect);
}.

Definition NewSceneController : World := mkWorld ∅ [] [].

Definition cancel (t : Task) : Task :=
  mkTask (Task_device t) (Task_scene t) true (Task_pc t).

Definition StopScene (goveeDeviceID : string) (w : World) : World :=
  match activeScenes w !! goveeDeviceID with
  | Some cancelFunc =>
      mkWorld (delete goveeDeviceID (activeScenes w))
              (alter cancel cancelFunc (tasks w))
              (trace w)
  | None => w
  end.

Definition SetScene (goveeLightId : string) (scene : Scene) (w : World) : World :=
  let w := StopScene goveeLightId w in
  let sceneCtx := length (tasks w) in
  mkWorld (<[goveeLightId := sceneCtx]> (activeScenes w))
          (tasks w ++ [mkTask goveeLightId scene false AtEntry])
          (trace w).

Definition IsActive (goveeLightID : string) (w : World) : bool :=
  match activeScenes w !! goveeLightID with
  | Some _ => true
  | None => false
  end.

Definition second : Z := 1000000000.

(** [timePerColor] of [runDynamicScene]. *)
Definition timePerColor (rt : Runtime) (scene : Scene) : Z :=
  let baseCycleTime := 20.0%float in
  let adjustedCycleTime := (baseCycleTime / Scene_Speed scene)%float in
  let colorsInPalette := Z.of_nat (length (Palette_Color (Scene_Palette scene))) in
  wrap64 (int_of_float rt (adjustedCycleTime / float_of_int colorsInPalette)%float * second).

(** The brightness of a step: the mean over the scene's actions. *)
Definition averageBrightness (scene : Scene) : float :=
  (fold_left (fun brightness action =>
                brightness + Dimming_Brightness (SceneAction_Dimming action))
             (Scene_Actions scene) 0
   / float_of_int (Z.of_nat (length (Scene_Actions scene))))%float.

(** The two commands of one palette step. *)
Definition applyPaletteColor (rt : Runtime) (goveeDeviceID : string) (scene : Scene)
    (paletteColor : PaletteColor) : list Effect :=
  let x := Coords_X (PaletteColor_XY paletteColor) in
  let y := Coords_Y (PaletteColor_XY paletteColor) in
  let brightness := averageBrightness scene in
  let '(r, g, b) := coordsToRGB rt x y (int_of_float rt brightness) GamutTypeC Gamut_zero in
  [SetColor goveeDeviceID r g b; SetBrightness goveeDeviceID (int_of_float rt brightness)].

(** How the last select of a step is resolved when both of its cases
    are ready. *)
Inductive Choice := TakeDone | TakeTimer.

(** The command a loop hands to [SetColor] for a palette entry, and the
    one it hands to [SetBrightness]: the two of [applyPaletteColor]. *)
Definition colorCommand (rt : Runtime) (goveeDeviceID : string) (scene : Scene)
    (paletteColor : PaletteColor) : Effect :=
  let x := Coords_X (PaletteColor_XY paletteColor) in
  let y := Coords_Y (PaletteColor_XY paletteColor) in
  let brightness := averageBrightness scene in
  let '(r, g, b) := coordsToRGB rt x y (int_of_float rt brightness) GamutTypeC Gamut_zero in
  SetColor goveeDeviceID r g b.

Definition brightnessCommand (rt : Runtime) (goveeDeviceID : string) (scene : Scene) : Effect :=
  let brightness := averageBrightness scene in
  let briByte := int_of_float rt brightness in
  SetBrightness goveeDeviceID briByte.

(** One step of [runDynamicScene]: the next position and what the step
    did. The context is read at the three selects only: once past the
    inner select the loop calls [SetColor] and then [SetBrightness]
    without reading it again, each call a step of its own. A loop
    waiting on a context that is not cancelled can only take the
    timer. *)
Definition loop_step (rt : Runtime) (ch : Choice) (t : Task) : pc * list Effect :=
  let palette := Palette_Color (Scene_Palette (Task_scene t)) in
  match Task_pc t with
  | AtEntry =>
      if (length palette =? 0)%nat then (Finished, []) else (AtLoopTop, [])
  | AtLoopTop =>
      if Task_cancelled t then (Finished, []) else (AtColor 0, [])
  | AtColor i =>
      match palette !! i with
      | None => (AtLoopTop, [])
      | Some paletteColor =>
          if Task_cancelled t then (Finished, []) else (AtSetColor i, [])
      end
  | AtSetColor i =>
      match palette !! i with
      | None => (AtLoopTop, [])
      | Some paletteColor =>
          (AtSetBrightness i, [colorCommand rt (Task_device t) (Task_scene t) paletteColor])
      end
  | AtSetBrightness i =>
      (AtWait i, [brightnessCommand rt (Task_device t) (Task_scene t)])
  | AtWait i =>
      match ch, Task_cancelled t with
      | TakeDone, true => (Finished, [])
      | _, _ => (AtColor (S i), [Sleep (timePerColor rt (Task_scene t))])
      end
  | Finished => (Finished, [])
  end.

Definition run_task (rt : Runtime) (ch : Choice) (c : nat) (w : World) : World :=
  match tasks w !! c with
  | Some t =>
      let '(next, effects) := loop_step rt ch t in
      mkWorld (activeScenes w)
              (<[c := mkTask (Task_device t) (Task_scene t) (Task_cancelled t) next]> (tasks w))
              (trace w ++ map (pair c) effects)
  | None => w
  end.

(** What happens to a controller: the driver calls it, or the scheduler
    runs one of the loops for a step. *)
Inductive Event :=
  | CallSetScene (goveeLightId : string) (scene : Scene)
  | CallStopScene (goveeDeviceID : string)
  | LoopRuns (c : nat) (ch : Choice).

Definition exec (rt : Runtime) (w : World) (e : Event) : World :=
  match e with
  | CallSetScene d s => SetScene d s w
  | CallStopScene d => StopScene d w
  | LoopRuns c ch => run_task rt ch c w
  end.

Definition run (rt : Runtime) (es : list Event) (w : World) : World :=
  fold_left (exec rt) es w.

(** The device an event's call is about, if it is a call. *)
Definition called_device (e : Event) : option string :=
  match e with
  | CallSetScene d _ | CallStopScene d => Some d
  | LoopRuns _ _ => None
  end.

End SceneController.

Import SceneController.

(** ** Notions the properties are stated with *)

(** The projections of [point] on the three edges with their distances,
    in the order of the loop of [correctToGamut]. *)
Definition projections (point : Coords) (gamut : Gamut) : list (Coords * float) :=
  map (λ edge, findClosestPoint edge.1 edge.2 point) (gamut_edges gamut).

(** The loop of [correctToGamut], on the list of projections. *)
Definition keep_closest (st : float * Coords) (pd : Coords * float) : float * Coords :=
  if (pd.2 <? st.1)%float then (pd.2, pd.1) else st.

(** [q] is the first end of the segment, or [p1 + t * (p2 - p1)] as the
    program computes it, for a parameter [t] of [0, 1]. *)
Definition on_segment (p1 p2 q : Coords) : Prop :=
  q = p1 ∨
  ∃ t, (0 <=? t)%float = true ∧ (t <=? 1)%float = true ∧
       q = mkCoords (Coords_X p1 + t * (Coords_X p2 - Coords_X p1))%float
                    (Coords_Y p1 + t * (Coords_Y p2 - Coords_Y p1))%float.

Definition on_gamut_edge (gamut : Gamut) (k : nat) (q : Coords) : Prop :=
  ∃ edge, gamut_edges gamut !! k = Some edge ∧ on_segment edge.1 edge.2 q.

(** The distance of two points, as float64 computes it. *)
Definition distance (a b : Coords) : float :=
  math_Sqrt ((Coords_X a - Coords_X b) * (Coords_X a - Coords_X b)
             + (Coords_Y a - Coords_Y b) * (Coords_Y a - Coords_Y b))%float.

Definition squared_length (p1 p2 : Coords) : float :=
  ((Coords_X p2 - Coords_X p1) * (Coords_X p2 - Coords_X p1)
   + (Coords_Y p2 - Coords_Y p1) * (Coords_Y p2 - Coords_Y p1))%float.

(** The segment projection in the words of the specification: the
    parameter of the foot of [target] on the line through [p1] and
    [p2], clamped to [0, 1], and the point of the segment at it. *)
Definition projection_parameter (p1 p2 target : Coords) : float :=
  (((Coords_X target - Coords_X p1) * (Coords_X p2 - Coords_X p1)
    + (Coords_Y target - Coords_Y p1) * (Coords_Y p2 - Coords_Y p1))
   / squared_length p1 p2)%float.

Definition clamped_projection (p1 p2 target : Coords) : Coords :=
  let t := math_Max 0 (math_Min 1 (projection_parameter p1 p2 target)) in
  mkCoords (Coords_X p1 + t * (Coords_X p2 - Coords_X p1))%float
           (Coords_Y p1 + t * (Coords_Y p2 - Coords_Y p1))%float.

(** The projection on an edge with its distance; an edge of squared
    length below 1e-10 counts as its first end. *)
Definition edge_projection (p1 p2 target : Coords) : Coords * float :=
  let q := if (squared_length p1 p2 <? 1e-10)%float then p1
           else clamped_projection p1 p2 target in
  (q, distance target q).

Definition is_origin (p : Coords) : bool :=
  (Coords_X p =? 0)%float && (Coords_Y p =? 0)%float.

(** The nearest integer to [brightness * 255 / 100], halves upwards. *)
Definition round_brightness_255 (brightness : Z) : Z :=
  (2 * (brightness * 255) + 100) / 200.

(** Zeros, and numbers that are zero or finite, by their specification. *)
Definition sf_zero (f : spec_float) : bool :=
  match f with S754_zero _ => true | _ => false end.

Definition sf_finite (f : spec_float) : bool :=
  match f with S754_zero _ | S754_finite _ _ _ => true | _ => false end.

Definition sf_nonzero (f : spec_float) : bool :=
  match f with S754_finite _ _ _ => true | _ => false end.

(** A loop [c] plays for device [d]: it was started for [d] and its
    context has not been cancelled. *)
Definition playing (w : World) (c : nat) (d : string) : Prop :=
  ∃ t, tasks w !! c = Some t ∧ Task_device t = d ∧ Task_cancelled t = false.

(** The registrations are the playing loops. *)
Definition registered_iff_playing (w : World) : Prop :=
  ∀ d c, activeScenes w !! d = Some c ↔ playing w c d.

(** Effects come from loops that exist. *)
Definition trace_bounded (w : World) : Prop :=
  Forall (λ e, e.1 < length (tasks w))%nat (trace w).

(** A loop on a scene [s] stands at its entry or has returned. *)
Definition idle (s : Scene) (t : Task) : Prop :=
  Task_scene t = s ∧ (Task_pc t = AtEntry ∨ Task_pc t = Finished).

(** What the controller keeps of the loop [c] started for [d] on a
    scene [s] without colours, as long as nobody calls it for [d]. *)
Definition kept (d : string) (s : Scene) (c : nat) (w : World) : Prop :=
  (∃ t, tasks w !! c = Some t ∧ idle s t) ∧
  Forall (λ e, e.1 ≠ c) (trace w) ∧
  activeScenes w !! d = Some c.

(** ** Inputs the statements are evaluated at *)

(** A triangle with an edge on the line [y = 0]. *)
Definition unit_gamut : Gamut := mkGamut (mkCoords 1 0) (mkCoords 0 1) (mkCoords 0 0).

(** A triangle whose blue vertex lies a hair above the line [y = 0]. *)
Definition low_blue : Coords := mkCoords 0.13334403080875692 1e-13.
Definition low_blue_gamut : Gamut := mkGamut (mkCoords 1 0) (mkCoords 0 1) low_blue.

Definition no_colours : Scene :=
  mkScene "scene" (mkPalette [] []) 1 (mkSceneStatus "dynamic_palette" "")
          (mkGroup "room-1" "room") [].

Definition three_colours : Scene :=
  mkScene "scene"
          (mkPalette (repeat (mkPaletteColor (mkCoords 0.3 0.3) (mkDimming 100)) 3) [])
          1 (mkSceneStatus "dynamic_palette" "") (mkGroup "room-1" "room")
          [mkSceneAction (mkOn true) (mkDimming 50)].

(** Off, with a colour temperature flagged valid and a mirek of zero. *)
Definition dark_light : Light :=
  mkLight (mkOn false) (mkDimming 80) (mkColorTemperature 0 true)
          (mkColor (mkCoords 0.3 0.3) Gamut_zero "C") (mkDynamics "none").

Definition warm_light : Light :=
  mkLight (mkOn true) (mkDimming 80) (mkColorTemperature 366 true)
          (mkColor (mkCoords 0.3 0.3) Gamut_zero "C") (mkDynamics "none").

(** On, without colour temperature and without colour. *)
Definition grey_light (brightness : float) : Light :=
  mkLight (mkOn true) (mkDimming brightness) (mkColorTemperature 0 false)
          (mkColor (mkCoords 0 0) Gamut_zero "") (mkDynamics "none").

(** ** Runs of one playback loop *)

(** One step of the goroutine of a task. *)
Definition step_task (rt : Runtime) (ch : Choice) (t : Task) : Task * list Effect :=
  let '(next, effects) := loop_step rt ch t in
  (mkTask (Task_device t) (Task_scene t) (Task_cancelled t) next, effects).

(** Some steps in a row, one per choice, with what they did. *)
Fixpoint run_loop (rt : Runtime) (chs : list Choice) (t : Task) : Task * list Effect :=
  match chs with
  | [] => (t, [])
  | ch :: chs =>
      let '(t1, e1) := step_task rt ch t in
      let '(t2, e2) := run_loop rt chs t1 in
      (t2, e1 ++ e2)
  end.

Definition is_command (e : Effect) : bool :=
  match e with
  | SetColor _ _ _ _ | SetBrightness _ _ => true
  | Sleep _ => false
  end.

(** What one palette entry makes a loop do: the two commands, then the
    wait. *)
Definition palette_step (rt : Runtime) (t : Task) (paletteColor : PaletteColor) : list Effect :=
  applyPaletteColor rt (Task_device t) (Task_scene t) paletteColor
  ++ [Sleep (timePerColor rt (Task_scene t))].

Definition colours (t : Task) : list PaletteColor :=
  Palette_Color (Scene_Palette (Task_scene t)).

Definition at_pc (t : Task) (p : pc) : Task :=
  mkTask (Task_device t) (Task_scene t) (Task_cancelled t) p.

(** How many steps a loop on a cancelled context can still take at
    most before it returns. *)
Definition steps_to_return (t : Task) : nat :=
  match Task_pc t with
  | AtSetColor _ => 5
  | AtSetBrightness _ => 4
  | AtWait _ => 3
  | AtEntry => 2
  | AtColor _ => 2
  | AtLoopTop => 1
  | Finished => 0
  end.

(** The commands among some effects, in order. *)
Definition commands (effects : list Effect) : list Effect := List.filter is_command effects.

(** The commands of the palette entry a loop has begun and not yet
    handed over: both when it is past the inner select, the brightness
    when the colour is out, none elsewhere. *)
Definition pending_commands (rt : Runtime) (t : Task) : list Effect :=
  match Task_pc t with
  | AtSetColor i =>
      match colours t !! i with
      | Some paletteColor => applyPaletteColor rt (Task_device t) (Task_scene t) paletteColor
      | None => []
      end
  | AtSetBrightness _ => [brightnessCommand rt (Task_device t) (Task_scene t)]
  | _ => []
  end.


(** What an effect of a task looks like: a command to the task's device
    for one of its palette entries, at the mean brightness of the
    scene, or a wait of [timePerColor]. *)
Definition effect_matches_task (rt : Runtime) (t : Task) (e : Effect) : Prop :=
  match e with
  | SetColor d r g b =>
      d = Task_device t ∧
      ∃ paletteColor, paletteColor ∈ colours t ∧
        (r, g, b) = coordsToRGB rt (Coords_X (PaletteColor_XY paletteColor))
                      (Coords_Y (PaletteColor_XY paletteColor))
                      (int_of_float rt (averageBrightness (Task_scene t)))
                      GamutTypeC Gamut_zero
  | SetBrightness d v =>
      d = Task_device t ∧ v = int_of_float rt (averageBrightness (Task_scene t))
  | Sleep z => z = timePerColor rt (Task_scene t)
  end.

(** Every effect in the trace is one of the loop it is recorded for. *)
Definition trace_explained (rt : Runtime) (w : World) : Prop :=
  ∀ c e, (c, e) ∈ trace w → ∃ t, tasks w !! c = Some t ∧ effect_matches_task rt t e.

(** Twenty-one colours at speed 1. *)
Definition many_colours : Scene :=
  mkScene "scene"
          (mkPalette (repeat (mkPaletteColor (mkCoords 0.3 0.3) (mkDimming 100)) 21) [])
          1 (mkSceneStatus "dynamic_palette" "") (mkGroup "room-1" "room")
          [mkSceneAction (mkOn true) (mkDimming 50)].


(** ** The Govee client (package govee)

    The client keeps the devices that announced themselves and sends
    each command as one UDP datagram. The network is the environment:
    what arrives on the discovery socket is an argument of [receive],
    and whether a datagram can be sent is an argument of
    [sendCommand]. A payload is kept as the message it encodes. The
    source reads and writes the map of devices from several goroutines
    without a lock; here each read and each write is one step. *)

Module Govee.

Record RGBColor := mkRGBColor { RGBColor_R : Z; RGBColor_G : Z; RGBColor_B : Z }.

(** The [data] of a message: the three types [sendCommand] is called
    with, structs of integers, whose encoding cannot fail, and the one
    of the discovery request. *)
Inductive Data :=
  | TurnData (Value : Z)
  | ColorData (Color : RGBColor) (ColorTemperature : Z)
  | BrightnessData (Value : Z)
  | DiscoveryResponseData (AccountTopic : string).

Record Message := mkMessage { Message_Command : string; Message_Data : Data }.

Record DiscoveryData := mkDiscoveryData {
  DiscoveryData_DeviceID : string;
  DiscoveryData_IP : string;
}.

(** A [Construct[DiscoveryData]] as [json.Unmarshal] fills it. *)
Record DiscoveryMessage := mkDiscoveryMessage {
  DiscoveryMessage_Command : string;
  DiscoveryMessage_Data : DiscoveryData;
}.

Definition discoveryPort : Z := 4001.
Definition controlPort : Z := 4003.

(** A datagram written to [host:port]. *)
Record Datagram := mkDatagram {
  Datagram_Host : string;
  Datagram_Port : Z;
  Datagram_Payload : Message;
}.

Inductive error :=
  | ErrDeviceNotFound
  | ErrConnect (deviceID : string)    (* "failed to connect to device" *)
  | ErrSend (deviceID : string).      (* "failed to send command to device" *)

(** What the network does with one command. *)
Inductive Net := DialFails | WriteFails | Delivers.

Record Client := mkClient {
  multicastIP : string;
  devices : gmap string string;
}.

Definition NewClient (multicastIP : string) : Client := mkClient multicastIP ∅.

(** The body of the receiving loop of [Discover] for one read;
    [None] is a read that failed or a datagram that is not the JSON of
    a discovery message. *)
Definition receive (c : Client) (packet : option DiscoveryMessage) : Client :=
  match packet with
  | None => c
  | Some msg =>
      if decide (DiscoveryMessage_Command msg = "scan") then
        match devices c !! DiscoveryData_DeviceID (DiscoveryMessage_Data msg) with
        | Some _ => c
        | None =>
            mkClient (multicastIP c)
                     (<[DiscoveryData_DeviceID (DiscoveryMessage_Data msg)
                        := DiscoveryData_IP (DiscoveryMessage_Data msg)]> (devices c))
        end
      else c
  end.

(** What the network does with one discovery request. *)
Inductive ScanFate := ResolveFails | ScanDialFails | ScanWriteFails | ScanDelivers.

(** One turn of the sending loop of [Discover]: whether the loop goes
    on, and what went out. It returns when the multicast address does
    not resolve, and tries again when dialing or writing fails. *)
Definition scan (c : Client) (fate : ScanFate) : bool * list Datagram :=
  match fate with
  | ResolveFails => (false, [])
  | ScanDialFails => (true, [])
  | ScanWriteFails => (true, [])
  | ScanDelivers =>
      (true, [mkDatagram (multicastIP c) discoveryPort
                         (mkMessage "scan" (DiscoveryResponseData "reserve"))])
  end.

(** [sendCommand]: the error, and what went out. *)
Definition sendCommand (c : Client) (net : Net) (deviceID cmd : string) (data : Data)
  : option error * list Datagram :=
  match devices c !! deviceID with
  | Some ip =>
      match net with
      | DialFails => (Some (ErrConnect deviceID), [])
      | WriteFails => (Some (ErrSend deviceID), [])
      | Delivers => (None, [mkDatagram ip controlPort (mkMessage cmd data)])
      end
  | None => (Some ErrDeviceNotFound, [])
  end.

Definition TurnOn (c : Client) (net : Net) (deviceID : string) :=
  sendCommand c net deviceID "turn" (TurnData 1).

Definition TurnOff (c : Client) (net : Net) (deviceID : string) :=
  sendCommand c net deviceID "turn" (TurnData 0).

Definition SetColor (c : Client) (net : Net) (deviceID : string) (r g b : Z) :=
  let colorData := ColorData (mkRGBColor r g b) 0 in
  sendCommand c net deviceID "colorwc" colorData.

Definition SetBrightness (c : Client) (net : Net) (deviceID : string) (value : Z) :=
  let briData := BrightnessData value in
  sendCommand c net deviceID "brightness" briData.

(** [err != nil && errors.Is(err, ErrDeviceNotFound)]: the errors of
    [sendCommand] that wrap another one wrap an error of the network. *)
Definition IsDeviceNotFound (err : option error) : bool :=
  match err with
  | Some ErrDeviceNotFound => true
  | _ => false
  end.

End Govee.

(** ** The Hue client (package hue): the two queries and the search
    for the bridge

    What the bridge answers, and what arrives from the network, is the
    environment. *)

Module HueClient.

Inductive Reply (A : Type) : Type :=
  | NoResponse        (* the request fails *)
  | StatusNotOK
  | BodyUnreadable    (* the body cannot be read or is not the JSON expected *)
  | Body (Data : list A).
Arguments NoResponse {A}.
Arguments StatusNotOK {A}.
Arguments BodyUnreadable {A}.
Arguments Body {A} Data.

Inductive error :=
  | ErrRequest
  | ErrStatus
  | ErrBody
  | ErrNoLight (lightID : string)
  | ErrNoActiveScene (roomId : string)
  | ErrContext                              (* [ctx.Err()] *)
  | ErrServiceNotFound (serviceName : string).

(** [GetLight]: the pointer and the error. *)
Definition GetLight (reply : Reply Light) (lightID : string) : option Light * option error :=
  match reply with
  | NoResponse => (None, Some ErrRequest)
  | StatusNotOK => (None, Some ErrStatus)
  | BodyUnreadable => (None, Some ErrBody)
  | Body Data =>
      match Data with
      | [] => (None, Some (ErrNoLight lightID))
      | light :: _ => (Some light, None)
      end
  end.

(** The test of the loop of [GetActiveScene]. *)
Definition active_in_room (roomId : string) (scene : Scene) : bool :=
  bool_decide (Group_ID (Scene_Group scene) = roomId)
  && bool_decide (SceneStatus_Active (Scene_Status scene) = "dynamic_palette")
  && bool_decide (Group_Type (Scene_Group scene) = "room").

Definition GetActiveScene (reply : Reply Scene) (roomId : string)
  : option Scene * option error :=
  match reply with
  | NoResponse => (None, Some ErrRequest)
  | StatusNotOK => (None, Some ErrStatus)
  | BodyUnreadable => (None, Some ErrBody)
  | Body Data =>
      if (length Data =? 0)%nat then (None, Some (ErrNoActiveScene roomId))
      else match find (active_in_room roomId) Data with
           | Some scene => (Some scene, None)
           | None => (None, Some (ErrNoActiveScene roomId))
           end
  end.

(** *** Finding the bridge

    [strings.ToUpper] and [strings.EqualFold] follow the Unicode tables
    of the Go library; they are given. *)
Record Strings := {
  ToUpper : string → string;
  EqualFold : string → string → bool;
}.

(** What a turn of the select of [discoverBridge] receives: the
    context is done, the channel of entries is closed, or an entry
    arrives, with its name and its IPv4 address as a string. *)
Inductive Select :=
  | CtxDone
  | Closed
  | Entry (Name : string) (AddrV4 : string).

Inductive discovery :=
  | Bridge (Address : string)
  | Fails (err : error)
  | Waits.              (* no return yet: the select blocks *)

(** The backslash, byte 92. *)
Definition backslash : Ascii.ascii :=
  Ascii.Ascii false false true true true false true false.

(** [strings.ReplaceAll] of the backslash by nothing: the name without
    its backslashes. *)
Fixpoint without_backslashes (name : string) : string :=
  match name with
  | EmptyString => EmptyString
  | String a rest =>
      if Ascii.eqb a backslash then without_backslashes rest
      else String a (without_backslashes rest)
  end.

(** [len("._hue._tcp.local.")] *)
Definition suffix_length : nat := 17.

(** The loop of [discoverBridge]. The slice
    [entryName[:len(entryName)-len("._hue._tcp.local.")]] panics when
    the name is shorter than the suffix. *)
Fixpoint await (u : Strings) (serviceName : string) (selects : list Select)
  : outcome discovery :=
  match selects with
  | [] => Returns Waits
  | CtxDone :: _ => Returns (Fails ErrContext)
  | Closed :: _ => Returns (Fails (ErrServiceNotFound serviceName))
  | Entry Name AddrV4 :: selects =>
      let entryName := without_backslashes Name in
      if decide (entryName = EmptyString) then Returns (Fails (ErrServiceNotFound serviceName))
      else if (String.length entryName <? suffix_length)%nat then Panics
      else
        let entryName := String.substring 0 (String.length entryName - suffix_length) entryName in
        if EqualFold u entryName serviceName then Returns (Bridge AddrV4)
        else await u serviceName selects
  end.

(** "Hue Bridge - " followed by the last six bytes of the bridge id in
    upper case; the slice [hueBridgeID[len(hueBridgeID)-6:]] panics on
    a shorter id. *)
Definition serviceName (u : Strings) (hueBridgeID : string) : string :=
  "Hue Bridge - " +:+ ToUpper u (String.substring (String.length hueBridgeID - 6) 6 hueBridgeID).

Definition discoverBridge (u : Strings) (hueBridgeID : string) (selects : list Select)
  : outcome discovery :=
  if (String.length hueBridgeID <? 6)%nat then Panics
  else await u (serviceName u hueBridgeID) selects.

End HueClient.

(** ** The bridge (package main, package config)

    The state of the program: the controller with its loops, the Govee
    client, and the datagrams sent so far. *)

Module Config.

(** [FixedBrightness] is a [*int]: [None] is nil. *)
Record Synchronization := mkSynchronization {
  HueLightId : string;
  HueRoomId : string;
  GoveeDeviceId : string;
  FixedBrightness : option Z;
}.

Inductive error :=
  | ErrUnmarshal
  | ErrFixedBrightness.   (* "fixed brightness out of range, must be between 0 and 100" *)

(** The loop of [GetSynchronizations]: whether it returns its error. *)
Fixpoint out_of_range (synchronizations : list Synchronization) : bool :=
  match synchronizations with
  | [] => false
  | synchronization :: rest =>
      match FixedBrightness synchronization with
      | Some fixedBrightness =>
          if (100 <? fixedBrightness) || (fixedBrightness <? 0) then true
          else out_of_range rest
      | None => out_of_range rest
      end
  end.

(** [GetSynchronizations]; what the configuration file decodes to is
    the argument, [None] when the decoding fails. *)
Definition GetSynchronizations (unmarshalled : option (list Synchronization))
  : list Synchronization + error :=
  match unmarshalled with
  | None => inr ErrUnmarshal
  | Some synchronizations =>
      if out_of_range synchronizations then inr ErrFixedBrightness
      else inl synchronizations
  end.

End Config.

Module Main.
Import Config.

Record Bridge := mkBridge {
  controller : World;
  goveeClient : Govee.Client;
  sent : list Govee.Datagram;
}.

(** What the outside does during one turn of a synchronization loop:
    the answers of the Hue bridge and the fate of the [k]-th command. *)
Record Tick := mkTick {
  Tick_light : HueClient.Reply Light;
  Tick_scenes : HueClient.Reply Scene;
  Tick_net : nat → Govee.Net;
}.

(** One turn of the goroutine of [startSynchronization], after its
    timer fired, taken as a whole: with nothing of another goroutine in
    between it is [turn], the steps below in a row. The source reads
    [sync.FixedBrightness] from the loop variable and the rest from its
    copy; with a loop variable per iteration, as from Go 1.22, both are
    the synchronization of the goroutine. *)
Definition synchronize (rt : Runtime) (sync : Synchronization) (env : Tick) (b : Bridge)
  : outcome Bridge :=
  match HueClient.GetLight (Tick_light env) (HueLightId sync) with
  | (_, Some _) => Returns b
  | (None, None) => Panics
  | (Some light, None) =>
      if On_On (Light_On light) then
        if decide (Dynamics_Status (Light_Dynamics light) = DynamicsStatusActive) then
          if IsActive (GoveeDeviceId sync) (controller b) then Returns b
          else
            match HueClient.GetActiveScene (Tick_scenes env) (HueRoomId sync) with
            | (_, Some _) => Returns b
            | (None, None) => Returns b
            | (Some scene, None) =>
                Returns (mkBridge (SetScene (GoveeDeviceId sync) scene (controller b))
                                  (goveeClient b) (sent b))
            end
        else
          let sc := if IsActive (GoveeDeviceId sync) (controller b)
                    then StopScene (GoveeDeviceId sync) (controller b)
                    else controller b in
          match ColorToRGB rt light (FixedBrightness sync) with
          | Panics => Panics
          | Returns (r, g, b') =>
              let bri := int_of_float rt
                           (Dimming_Brightness (Light_Dimming light) / 254.0 * 100)%float in
              let bri := match FixedBrightness sync with
                         | Some fb => fb
                         | None => bri
                         end in
              let '(err, out1) :=
                Govee.SetColor (goveeClient b) (Tick_net env 0%nat) (GoveeDeviceId sync) r g b' in
              if Govee.IsDeviceNotFound err then
                Returns (mkBridge sc (goveeClient b) (sent b ++ out1))
              else
                let '(err, out2) :=
                  Govee.SetBrightness (goveeClient b) (Tick_net env 1%nat)
                                      (GoveeDeviceId sync) bri in
                Returns (mkBridge sc (goveeClient b) (sent b ++ out1 ++ out2))
          end
      else
        let '(err, out) :=
          Govee.TurnOff (goveeClient b) (Tick_net env 0%nat) (GoveeDeviceId sync) in
        Returns (mkBridge (controller b) (goveeClient b) (sent b ++ out))
  end.

(** *** The goroutines of the bridge, step by step

    The goroutines share the controller and the client. A step of a
    goroutine is what it does from one access to what is shared to the
    next; what it keeps in between is its position. *)

(** The second critical section of [SetScene], with the start of the
    goroutine: the new context is registered and its loop exists.
    [SetScene] is [StopScene] and then this. *)
Definition register (goveeLightId : string) (scene : Scene) (w : World) : World :=
  let sceneCtx := length (tasks w) in
  mkWorld (<[goveeLightId := sceneCtx]> (activeScenes w))
          (tasks w ++ [mkTask goveeLightId scene false AtEntry])
          (trace w).

(** Where a goroutine of [startSynchronization] stands, with the local
    variables it still needs. *)
Inductive position :=
  | AtTimer                      (* waiting for its timer *)
  | DynamicInactive              (* [IsActive] was false; before [GetActiveScene] *)
  | InSetScene (scene : Scene)   (* in [SetScene], past its [StopScene] *)
  | StaticActive (light : Light) (* [IsActive] was true; before [StopScene] *)
  | StaticReady (light : Light)  (* before [ColorToRGB] and [SetColor] *)
  | ColorSent (bri : Z).         (* before [SetBrightness] *)

Definition sync_step (rt : Runtime) (sync : Synchronization) (env : Tick)
    (pos : position) (b : Bridge) : outcome (position * Bridge) :=
  match pos with
  | AtTimer =>
      match HueClient.GetLight (Tick_light env) (HueLightId sync) with
      | (_, Some _) => Returns (AtTimer, b)
      | (None, None) => Panics
      | (Some light, None) =>
          if On_On (Light_On light) then
            if decide (Dynamics_Status (Light_Dynamics light) = DynamicsStatusActive) then
              if IsActive (GoveeDeviceId sync) (controller b) then Returns (AtTimer, b)
              else Returns (DynamicInactive, b)
            else
              if IsActive (GoveeDeviceId sync) (controller b)
              then Returns (StaticActive light, b)
              else Returns (StaticReady light, b)
          else
            let '(err, out) :=
              Govee.TurnOff (goveeClient b) (Tick_net env 0%nat) (GoveeDeviceId sync) in
            Returns (AtTimer, mkBridge (controller b) (goveeClient b) (sent b ++ out))
      end
  | DynamicInactive =>
      match HueClient.GetActiveScene (Tick_scenes env) (HueRoomId sync) with
      | (_, Some _) => Returns (AtTimer, b)
      | (None, None) => Returns (AtTimer, b)
      | (Some scene, None) =>
          Returns (InSetScene scene,
                   mkBridge (StopScene (GoveeDeviceId sync) (controller b))
                            (goveeClient b) (sent b))
      end
  | InSetScene scene =>
      Returns (AtTimer,
               mkBridge (register (GoveeDeviceId sync) scene (controller b))
                        (goveeClient b) (sent b))
  | StaticActive light =>
      Returns (StaticReady light,
               mkBridge (StopScene (GoveeDeviceId sync) (controller b))
                        (goveeClient b) (sent b))
  | StaticReady light =>
      match ColorToRGB rt light (FixedBrightness sync) with
      | Panics => Panics
      | Returns (r, g, b') =>
          let bri := int_of_float rt
                       (Dimming_Brightness (Light_Dimming light) / 254.0 * 100)%float in
          let bri := match FixedBrightness sync with
                     | Some fb => fb
                     | None => bri
                     end in
          let '(err, out1) :=
            Govee.SetColor (goveeClient b) (Tick_net env 0%nat) (GoveeDeviceId sync) r g b' in
          if Govee.IsDeviceNotFound err then
            Returns (AtTimer, mkBridge (controller b) (goveeClient b) (sent b ++ out1))
          else
            Returns (ColorSent bri, mkBridge (controller b) (goveeClient b) (sent b ++ out1))
      end
  | ColorSent bri =>
      let '(err, out2) :=
        Govee.SetBrightness (goveeClient b) (Tick_net env 1%nat) (GoveeDeviceId sync) bri in
      Returns (AtTimer, mkBridge (controller b) (goveeClient b) (sent b ++ out2))
  end.

(** The steps of one turn in a row, nothing in between. *)
Fixpoint turn (rt : Runtime) (sync : Synchronization) (env : Tick) (fuel : nat)
    (pos : position) (b : Bridge) : outcome (position * Bridge) :=
  match fuel with
  | O => Returns (pos, b)
  | S fuel =>
      match sync_step rt sync env pos b with
      | Panics => Panics
      | Returns (AtTimer, b) => Returns (AtTimer, b)
      | Returns (pos, b) => turn rt sync env fuel pos b
      end
  end.

(** A command of a playback loop, handed to the client; the loop logs
    an error and goes on. *)
Definition hand_over (client : Govee.Client) (net : Govee.Net) (e : Effect)
  : list Govee.Datagram :=
  match e with
  | SetColor deviceID r g b => (Govee.SetColor client net deviceID r g b).2
  | SetBrightness deviceID value => (Govee.SetBrightness client net deviceID value).2
  | Sleep _ => []
  end.

(** The running program: the bridge, the goroutines of
    [startSynchronization] with their positions, and whether the sending
    loop of [Discover] still runs. *)
Record Program := mkProgram {
  bridge : Bridge;
  synchronizations : list (Synchronization * position);
  scanning : bool;
}.

(** What happens to the running program: a synchronization goroutine
    takes a step, the discovery socket reads, a playback loop takes a
    step, the sending loop of [Discover] takes a turn. *)
Inductive Happening :=
  | SyncRuns (i : nat) (env : Tick)
  | SocketReads (packet : option Govee.DiscoveryMessage)
  | SceneLoopRuns (c : nat) (ch : Choice) (net : Govee.Net)
  | ScanRuns (fate : Govee.ScanFate).

Definition happen (rt : Runtime) (p : Program) (h : Happening) : outcome Program :=
  let b := bridge p in
  match h with
  | SyncRuns i env =>
      match synchronizations p !! i with
      | Some (sync, pos) =>
          match sync_step rt sync env pos b with
          | Panics => Panics
          | Returns (pos, b) =>
              Returns (mkProgram b (<[i := (sync, pos)]> (synchronizations p)) (scanning p))
          end
      | None => Returns p
      end
  | SocketReads packet =>
      Returns (mkProgram
                 (mkBridge (controller b) (Govee.receive (goveeClient b) packet) (sent b))
                 (synchronizations p) (scanning p))
  | SceneLoopRuns c ch net =>
      match tasks (controller b) !! c with
      | Some t =>
          Returns (mkProgram
                     (mkBridge (run_task rt ch c (controller b)) (goveeClient b)
                               (sent b ++ flat_map (hand_over (goveeClient b) net)
                                                   (loop_step rt ch t).2))
                     (synchronizations p) (scanning p))
      | None => Returns p
      end
  | ScanRuns fate =>
      if scanning p then
        let '(goes_on, out) := Govee.scan (goveeClient b) fate in
        Returns (mkProgram (mkBridge (controller b) (goveeClient b) (sent b ++ out))
                           (synchronizations p) goes_on)
      else Returns p
  end.

Fixpoint bridge_run (rt : Runtime) (hs : list Happening) (p : Program) : outcome Program :=
  match hs with
  | [] => Returns p
  | h :: hs =>
      match happen rt p h with
      | Returns p => bridge_run rt hs p
      | Panics => Panics
      end
  end.

(** The program as [main] sets it up, for the synchronizations
    [GetSynchronizations] returned. *)
Definition started (multicastIP : string) (syncs : list Synchronization) : Program :=
  mkProgram (mkBridge NewSceneController (Govee.NewClient multicastIP) [])
            (map (λ sync, (sync, AtTimer)) syncs) true.

End Main.

(** ** Notions for the properties of the bridge *)

(** An entry the loop of [discoverBridge] passes over: its name,
    without backslashes, is long enough to be cut and what is left does
    not fold to the service name. *)
Definition passed_over (u : HueClient.Strings) (serviceName : string)
    (s : HueClient.Select) : bool :=
  match s with
  | HueClient.Entry Name _ =>
      let entryName := HueClient.without_backslashes Name in
      (HueClient.suffix_length <=? String.length entryName)%nat
      && negb (HueClient.EqualFold u
                 (String.substring 0 (String.length entryName - HueClient.suffix_length) entryName)
                 serviceName)
  | _ => false
  end.

(** The packets that announce [deviceID]. *)
Definition announces (deviceID : string) (packet : option Govee.DiscoveryMessage) : bool :=
  match packet with
  | Some msg =>
      bool_decide (Govee.DiscoveryMessage_Command msg = "scan")
      && bool_decide (Govee.DiscoveryData_DeviceID (Govee.DiscoveryMessage_Data msg) = deviceID)
  | None => false
  end.

(** The address of the first announcement of [deviceID]. *)
Definition first_address (deviceID : string) (packets : list (option Govee.DiscoveryMessage))
  : option string :=
  match find (announces deviceID) packets with
  | Some (Some msg) => Some (Govee.DiscoveryData_IP (Govee.DiscoveryMessage_Data msg))
  | _ => None
  end.

(** The four commands of the client. *)
Inductive Command :=
  | DoTurnOn
  | DoTurnOff
  | DoSetColor (r g b : Z)
  | DoSetBrightness (value : Z).

Definition issue (c : Govee.Client) (net : Govee.Net) (deviceID : string) (cmd : Command)
  : option Govee.error * list Govee.Datagram :=
  match cmd with
  | DoTurnOn => Govee.TurnOn c net deviceID
  | DoTurnOff => Govee.TurnOff c net deviceID
  | DoSetColor r g b => Govee.SetColor c net deviceID r g b
  | DoSetBrightness value => Govee.SetBrightness c net deviceID value
  end.

Definition message_of (cmd : Command) : Govee.Message :=
  match cmd with
  | DoTurnOn => Govee.mkMessage "turn" (Govee.TurnData 1)
  | DoTurnOff => Govee.mkMessage "turn" (Govee.TurnData 0)
  | DoSetColor r g b => Govee.mkMessage "colorwc" (Govee.ColorData (Govee.mkRGBColor r g b) 0)
  | DoSetBrightness value => Govee.mkMessage "brightness" (Govee.BrightnessData value)
  end.

(** The payloads the bridge sends: switch off, a colour without colour
    temperature, a brightness. *)
Definition bridge_payload (m : Govee.Message) : Prop :=
  m = Govee.mkMessage "turn" (Govee.TurnData 0) ∨
  (∃ r g b, m = Govee.mkMessage "colorwc" (Govee.ColorData (Govee.mkRGBColor r g b) 0)) ∨
  (∃ value, m = Govee.mkMessage "brightness" (Govee.BrightnessData value)).

(** A command datagram of the bridge: to the control port of a device
    the client knows, with one of the three payloads. *)
Definition command_datagram (c : Govee.Client) (dg : Govee.Datagram) : Prop :=
  Govee.Datagram_Port dg = Govee.controlPort ∧
  (∃ deviceID, Govee.devices c !! deviceID = Some (Govee.Datagram_Host dg)) ∧
  bridge_payload (Govee.Datagram_Payload dg).

(** The discovery request: "scan" with the topic "reserve", to the
    discovery port of the multicast address. *)
Definition scan_request (multicastIP : string) : Govee.Datagram :=
  Govee.mkDatagram multicastIP Govee.discoveryPort
                   (Govee.mkMessage "scan" (Govee.DiscoveryResponseData "reserve")).

(** A datagram of the bridge: the discovery request or a command. *)
Definition bridge_datagram (c : Govee.Client) (dg : Govee.Datagram) : Prop :=
  dg = scan_request (Govee.multicastIP c) ∨ command_datagram c dg.

(** The packets read in a run of the bridge, in order. *)
Definition packets_of (hs : list Main.Happening) : list (option Govee.DiscoveryMessage) :=
  omap (λ h, match h with Main.SocketReads packet => Some packet | _ => None end) hs.

(** A datagram for [deviceID]: to the address the client has for it,
    at the control port, with one of the three payloads. *)
Definition own_datagram (c : Govee.Client) (deviceID : string) (dg : Govee.Datagram) : Prop :=
  Govee.devices c !! deviceID = Some (Govee.Datagram_Host dg) ∧
  Govee.Datagram_Port dg = Govee.controlPort ∧
  bridge_payload (Govee.Datagram_Payload dg).

(** A reply of the Hue bridge for a light that is off, and what
    happens around one turn on it. *)
Definition off_reply : HueClient.Reply Light := HueClient.Body [dark_light].

Definition lamp_sync : Config.Synchronization :=
  Config.mkSynchronization "light-1" "room-1" "lamp" None.

Definition quiet_turn : Main.Tick :=
  Main.mkTick off_reply HueClient.NoResponse (λ _, Govee.Delivers).

Definition lamp_announced : option Govee.DiscoveryMessage :=
  Some (Govee.mkDiscoveryMessage "scan" (Govee.mkDiscoveryData "lamp" "10.0.0.7")).

Definition lamp_moved : option Govee.DiscoveryMessage :=
  Some (Govee.mkDiscoveryMessage "scan" (Govee.mkDiscoveryData "lamp" "10.0.0.8")).

(** The Govee devices of the synchronizations, in order. *)
Definition synced_devices (p : Main.Program) : list string :=
  map (λ sp, Config.GoveeDeviceId sp.1) (Main.synchronizations p).

(** A goroutine between the two critical sections of [SetScene] has
    left its device unregistered. *)
Definition between_sections (p : Main.Program) : Prop :=
  ∀ i sync scene,
    Main.synchronizations p !! i = Some (sync, Main.InSetScene scene) →
    activeScenes (Main.controller (Main.bridge p)) !! Config.GoveeDeviceId sync = None.

(** A light in a dynamic scene, and a turn in which the Hue bridge
    reports it with the scene [three_colours]. *)
Definition moving_light : Light :=
  mkLight (mkOn true) (mkDimming 80) (mkColorTemperature 0 false)
          (mkColor (mkCoords 0.3 0.3) Gamut_zero "C") (mkDynamics "dynamic_palette").

Definition scene_turn : Main.Tick :=
  Main.mkTick (HueClient.Body [moving_light]) (HueClient.Body [three_colours])
              (λ _, Govee.Delivers).

(** A light that is on, grey, and in no dynamic scene; the lamp
    announced; a turn the network delivers. *)
Definition grey_reply : HueClient.Reply Light := HueClient.Body [grey_light 80].

Definition grey_turn : Main.Tick :=
  Main.mkTick grey_reply HueClient.NoResponse (λ _, Govee.Delivers).

Definition lamp_known : Main.Bridge :=
  Main.mkBridge NewSceneController
                (Govee.mkClient "239.255.255.250" (<["lamp" := "10.0.0.7"]> ∅)) [].

Definition dimmed_sync : Config.Synchronization :=
  Config.mkSynchronization "light-1" "room-1" "lamp" (Some 40).

(** * Properties *)

(** ** Binary64 order and NaN *)

(** The order of binary64 numbers, read off their specification. *)
Module FloatOrder.

Ltac cmp_cases :=
  repeat match goal with
    | |- context [Z.compare ?a ?b] => destruct (Z.compare_spec a b); subst
    | |- context [Pos.compare_cont Eq ?a ?b] =>
        change (Pos.compare_cont Eq a b) with (Pos.compare a b);
        destruct (Pos.compare_spec a b); subst
    end.

Ltac sf_order :=
  unfold SFltb, SFleb, SFcompare;
  repeat match goal with x : spec_float |- _ => destruct x as [[]|[]| |[] ? ?] end;
  simpl; try discriminate; try reflexivity;
  cmp_cases; simpl; intros; try discriminate; try reflexivity; try lia.

Lemma SFltb_trans x y z : SFltb x y = true → SFltb y z = true → SFltb x z = true.
Proof. sf_order. Qed.

Lemma SFleb_ltb_trans x y z : SFleb x y = true → SFltb y z = true → SFltb x z = true.
Proof. sf_order. Qed.

Lemma SFltb_not_leb x y : SFltb x y = true → SFleb y x = false.
Proof. sf_order. Qed.

Lemma SFltb_irrefl x : SFltb x x = false.
Proof. sf_order. Qed.

Lemma ltb_trans x y z : (x <? y)%float = true → (y <? z)%float = true → (x <? z)%float = true.
Proof. rewrite !ltb_spec. apply SFltb_trans. Qed.

Lemma leb_ltb_trans x y z :
  (x <=? y)%float = true → (y <? z)%float = true → (x <? z)%float = true.
Proof. rewrite leb_spec, !ltb_spec. apply SFleb_ltb_trans. Qed.

Lemma ltb_not_leb x y : (x <? y)%float = true → (y <=? x)%float = false.
Proof. rewrite leb_spec, ltb_spec. apply SFltb_not_leb. Qed.

Lemma ltb_irrefl x : (x <? x)%float = false.
Proof. rewrite ltb_spec. apply SFltb_irrefl. Qed.

Lemma ltb_asym x y : (x <? y)%float = true → (y <? x)%float = false.
Proof.
  intros H. destruct (y <? x)%float eqn:E; [|done].
  pose proof (ltb_trans _ _ _ H E) as H'. by rewrite ltb_irrefl in H'.
Qed.

End FloatOrder.

Module FloatNaN.
Import FloatOrder.

Lemma is_nan_spec x : is_nan x = true ↔ Prim2SF x = S754_nan.
Proof.
  unfold Prim2SF. destruct (is_nan x); [done|]. split; [done|].
  destruct (is_zero x); [done|]. destruct (is_infinity x); [done|].
  destruct (Z.frexp x) as [r e]. destruct (shr_fexp _ _ _ _ _) as [shr e'].
  by destruct (shr_m shr).
Qed.

Lemma nan_ltb x y : is_nan x = true → (x <? y)%float = false.
Proof. rewrite is_nan_spec, ltb_spec. by intros ->. Qed.

Lemma nan_mul_l x y : is_nan x = true → is_nan (x * y)%float = true.
Proof. rewrite !is_nan_spec, mul_spec. by intros ->. Qed.

Lemma nan_add_r x y : is_nan y = true → is_nan (x + y)%float = true.
Proof. rewrite !is_nan_spec, add_spec. intros ->. by destruct (Prim2SF x). Qed.

Lemma nan_add_l x y : is_nan x = true → is_nan (x + y)%float = true.
Proof. rewrite !is_nan_spec, add_spec. by intros ->. Qed.

Lemma nan_sub_r x y : is_nan y = true → is_nan (x - y)%float = true.
Proof. rewrite !is_nan_spec, sub_spec. intros ->. by destruct (Prim2SF x). Qed.

Lemma nan_sqrt x : is_nan x = true → is_nan (sqrt x) = true.
Proof. rewrite !is_nan_spec, sqrt_spec. by intros ->. Qed.

(** Two numbers that are not NaN compare. *)
Lemma not_ltb_leb x y :
  is_nan x = false → is_nan y = false → (x <? y)%float = false → (y <=? x)%float = true.
Proof.
  intros Hx Hy. rewrite ltb_spec, leb_spec.
  assert (Prim2SF x ≠ S754_nan) as Hx' by (rewrite <- is_nan_spec; congruence).
  assert (Prim2SF y ≠ S754_nan) as Hy' by (rewrite <- is_nan_spec; congruence).
  revert Hx' Hy'. generalize (Prim2SF x) (Prim2SF y). intros a b.
  unfold SFltb, SFleb, SFcompare.
  destruct a as [[]|[]| |[] ? ?], b as [[]|[]| |[] ? ?]; simpl; try done;
    cmp_cases; simpl; intros; try done; lia.
Qed.

Lemma pos_inf_above_one t : (t =? infinity)%float = true → (1 <? t)%float = true.
Proof.
  rewrite FloatAxioms.eqb_spec, ltb_spec. generalize (Prim2SF t). intros a.
  change (Prim2SF infinity) with (S754_infinity false).
  change (Prim2SF 1) with (S754_finite false 4503599627370496 (-52)).
  unfold SFeqb, SFltb, SFcompare. by destruct a as [[]|[]| |[] ? ?].
Qed.

End FloatNaN.

Import FloatOrder FloatNaN.

(** ** The loop of [correctToGamut] *)

Lemma closest_step_projection point st edge :
  closest_step point st edge = keep_closest st (findClosestPoint edge.1 edge.2 point).
Proof. unfold closest_step, keep_closest. by destruct (findClosestPoint _ _ _). Qed.

Lemma fold_closest_step point edges st :
  fold_left (closest_step point) edges st
  = fold_left keep_closest (map (λ edge, findClosestPoint edge.1 edge.2 point) edges) st.
Proof.
  revert st. induction edges as [|e es IH]; intros st; [done|].
  simpl. by rewrite IH, closest_step_projection.
Qed.

(** What the loop leaves: the start, when nothing is nearer, or the
    first of the nearest. *)
Lemma fold_keep_closest (l : list (Coords * float)) (closestDist : float) (closestPoint : Coords) :
  (fold_left keep_closest l (closestDist, closestPoint) = (closestDist, closestPoint) ∧
   ∀ j q d, l !! j = Some (q, d) → (d <? closestDist)%float = false) ∨
  (∃ k q d, l !! k = Some (q, d) ∧
     fold_left keep_closest l (closestDist, closestPoint) = (d, q) ∧
     (d <? closestDist)%float = true ∧
     (∀ j q' d', l !! j = Some (q', d') → (d' <? d)%float = false) ∧
     (∀ j q' d', l !! j = Some (q', d') → (j < k)%nat → (d' <=? d)%float = false)).
Proof.
  revert closestDist closestPoint.
  induction l as [|[q1 d1] l IH]; intros cd cp; [left; split; [done|]; by intros [] |].
  cbn [fold_left].
  replace (keep_closest (cd, cp) (q1, d1))
    with (if (d1 <? cd)%float then (d1, q1) else (cd, cp)) by done.
  destruct (d1 <? cd)%float eqn:E1.
  - right. destruct (IH d1 q1) as [[Hfold Hnone] | (k & q & d & Hk & Hfold & Hlt & Hmin & Hfirst)].
    + exists 0%nat, q1, d1. split_and!; try done.
      * intros [|j] q' d'; simpl; [intros [= <- <-]; apply ltb_irrefl | apply Hnone].
      * intros; lia.
    + exists (S k), q, d. split_and!; try done.
      * by eapply ltb_trans.
      * intros [|j] q' d'; simpl; [intros [= <- <-]; by apply ltb_asym | apply Hmin].
      * intros [|j] q' d'; simpl; [intros [= <- <-] _; by apply ltb_not_leb|].
        intros Hj ?. eapply Hfirst; [done | lia].
  - destruct (IH cd cp) as [[Hfold Hnone] | (k & q & d & Hk & Hfold & Hlt & Hmin & Hfirst)].
    + left. split; [done|].
      intros [|j] q' d'; simpl; [by intros [= <- <-] | apply Hnone].
    + right. exists (S k), q, d. split_and!; try done.
      * intros [|j] q' d'; simpl; [intros [= <- <-] | apply Hmin].
        destruct (d1 <? d)%float eqn:E; [|done].
        by rewrite (ltb_trans _ _ _ E Hlt) in E1.
      * intros [|j] q' d'; simpl.
        -- intros [= <- <-] _. destruct (d1 <=? d)%float eqn:E; [|done].
           by rewrite (leb_ltb_trans _ _ _ E Hlt) in E1.
        -- intros Hj ?. eapply Hfirst; [done | lia].
Qed.

(** The clamped parameter is in [0, 1] unless it is NaN. *)
Lemma clamped_parameter t :
  let t' := math_Max 0 (math_Min 1 t) in
  is_nan t' = true ∨ ((0 <=? t')%float = true ∧ (t' <=? 1)%float = true).
Proof.
  intros t'. subst t'.
  assert (is_nan (math_Min 1 t) = true ∨ (math_Min 1 t <=? 1)%float = true) as Hmin.
  { unfold math_Min. change (is_neg_inf 1) with false. change (is_nan 1) with false.
    change (1 =? 0)%float with false. simpl.
    destruct (is_neg_inf t); [by right|].
    destruct (is_nan t) eqn:Ht; [by left|].
    destruct (1 <? t)%float eqn:E; [by right|].
    right. by apply not_ltb_leb. }
  unfold math_Max. change (is_pos_inf 0) with false. change (is_nan 0) with false.
  change (0 =? 0)%float with true. change (get_sign 0) with false. simpl.
  set (m := math_Min 1 t) in *.
  destruct (is_pos_inf m) eqn:Hinf.
  { destruct Hmin as [Hm | Hm].
    - unfold is_pos_inf in Hinf. rewrite FloatAxioms.eqb_spec in Hinf.
      apply is_nan_spec in Hm. by rewrite Hm in Hinf.
    - apply pos_inf_above_one in Hinf. apply ltb_not_leb in Hinf. congruence. }
  destruct (is_nan m) eqn:Hm; [by left|].
  destruct (0 =? m)%float; [by right|].
  destruct (m <? 0)%float eqn:E; [by right|].
  right. split; [by apply not_ltb_leb|]. by destruct Hmin as [?|?]; [congruence|].
Qed.

(** A projection at a distance that compares below something lies on
    its segment. *)
Lemma findClosestPoint_on_segment p1 p2 target q d bound :
  findClosestPoint p1 p2 target = (q, d) →
  (d <? bound)%float = true →
  on_segment p1 p2 q.
Proof.
  unfold findClosestPoint.
  destruct (_ <? 1e-10)%float; [intros [= <- _] _; by left|].
  set (t := math_Max 0 (math_Min 1 _)).
  intros [= <- <-] Hd.
  destruct (clamped_parameter
              (((Coords_X target - Coords_X p1) * (Coords_X p2 - Coords_X p1)
                + (Coords_Y target - Coords_Y p1) * (Coords_Y p2 - Coords_Y p1))
               / ((Coords_X p2 - Coords_X p1) * (Coords_X p2 - Coords_X p1)
                  + (Coords_Y p2 - Coords_Y p1) * (Coords_Y p2 - Coords_Y p1)))%float)
    as [Hnan | [H0 H1]]; fold t in Hnan || fold t in H0, H1.
  - rewrite nan_ltb in Hd; [done|].
    unfold math_Sqrt. apply nan_sqrt, nan_add_l, nan_mul_l, nan_sub_r, nan_add_r, nan_mul_l, Hnan.
  - right. by exists t.
Qed.

(** ** Invariants of the scene controller *)

Section controller.
Variable rt : Runtime.

Lemma playing_inj w c d1 d2 : playing w c d1 → playing w c d2 → d1 = d2.
Proof. intros (t1 & H1 & <- & _) (t2 & H2 & <- & _). congruence. Qed.

Lemma StopScene_length d w : length (tasks (StopScene d w)) = length (tasks w).
Proof.
  unfold StopScene. destruct (activeScenes w !! d); simpl; [|done].
  by rewrite length_alter.
Qed.

Lemma StopScene_trace d w : trace (StopScene d w) = trace w.
Proof. unfold StopScene. by destruct (activeScenes w !! d). Qed.

Lemma StopScene_unregisters d w : activeScenes (StopScene d w) !! d = None.
Proof.
  unfold StopScene. destruct (activeScenes w !! d) eqn:E; simpl; [|done].
  apply lookup_delete_eq.
Qed.

Lemma StopScene_other d d' w :
  d ≠ d' → activeScenes (StopScene d w) !! d' = activeScenes w !! d'.
Proof.
  intros Hne. unfold StopScene. destruct (activeScenes w !! d); simpl; [|done].
  by rewrite lookup_delete_ne.
Qed.

(** StopScene cancels the registered context, and only that one. *)
Lemma StopScene_playing d w c d' :
  registered_iff_playing w →
  playing (StopScene d w) c d' ↔ playing w c d' ∧ d' ≠ d.
Proof.
  intros Hinv. unfold StopScene.
  destruct (activeScenes w !! d) as [c0|] eqn:E; simpl.
  - apply Hinv in E as Hc0. unfold playing; simpl. split.
    + intros (t & Ht & Hd & Hc).
      destruct (decide (c0 = c)) as [->|Hne].
      * rewrite list_lookup_alter_eq in Ht.
        destruct (tasks w !! c); simplify_eq/=.
      * rewrite list_lookup_alter_ne in Ht by done.
        split; [by exists t|]. intros ->.
        assert (activeScenes w !! d = Some c) as E' by (apply Hinv; by exists t).
        congruence.
    + intros [(t & Ht & Hd & Hc) Hne]. exists t. split_and!; try done.
      rewrite list_lookup_alter_ne; [done|]. intros ->.
      apply Hne. eapply playing_inj; [by exists t | done].
  - split; [|by intros [? _]]. intros Hp. split; [done|]. intros ->.
    apply Hinv in Hp. congruence.
Qed.

Lemma Inv_StopScene d w : registered_iff_playing w → registered_iff_playing (StopScene d w).
Proof.
  intros Hinv d' c. rewrite StopScene_playing by done.
  destruct (decide (d = d')) as [<-|Hne].
  - rewrite StopScene_unregisters. naive_solver.
  - rewrite StopScene_other by done. rewrite (Hinv d' c). naive_solver.
Qed.

(** After SetScene the loops playing for the device are the new one. *)
Lemma SetScene_playing d s w c d' :
  registered_iff_playing w →
  playing (SetScene d s w) c d' ↔
    (d' = d ∧ c = length (tasks w)) ∨ (d' ≠ d ∧ playing w c d').
Proof.
  intros Hinv. unfold SetScene. rewrite StopScene_length.
  pose proof (StopScene_playing d w) as HS.
  pose proof (StopScene_length d w) as HL.
  set (w1 := StopScene d w) in *. unfold playing at 1; simpl. split.
  - intros (t & Ht & Hd & Hc).
    apply lookup_app_Some in Ht as [Ht | [Hlen Ht]].
    + right. assert (playing w1 c d') as Hp by (by exists t).
      apply HS in Hp; naive_solver.
    + left. rewrite HL in *. destruct (c - length (tasks w))%nat eqn:E; simplify_eq/=.
      split; [done | lia].
  - intros [[-> ->] | [Hne Hp]].
    + eexists. rewrite lookup_app_r by lia. rewrite HL, Nat.sub_diag. done.
    + assert (playing w1 c d') as (t & Ht & ? & ?) by (apply HS; done).
      exists t. split_and!; try done. apply lookup_app_l_Some. done.
Qed.

Lemma Inv_SetScene d s w : registered_iff_playing w → registered_iff_playing (SetScene d s w).
Proof.
  intros Hinv d' c. rewrite SetScene_playing by done.
  unfold SetScene; simpl. rewrite StopScene_length.
  destruct (decide (d = d')) as [<-|Hne].
  - rewrite lookup_insert_eq. naive_solver.
  - rewrite lookup_insert_ne by done. rewrite StopScene_other by done.
    rewrite (Hinv d' c). naive_solver.
Qed.

(** A step of a loop moves that loop only. *)
Lemma run_task_playing ch c0 w c d : playing (run_task rt ch c0 w) c d ↔ playing w c d.
Proof.
  unfold run_task. destruct (tasks w !! c0) as [t0|] eqn:E; [|done].
  destruct (loop_step rt ch t0) as [next effects]. unfold playing; simpl.
  destruct (decide (c0 = c)) as [->|Hne].
  - rewrite list_lookup_insert_eq by (by eapply lookup_lt_Some). rewrite E.
    split; intros (t & Ht & Hd & Hc); simplify_eq/=; eauto.
  - by rewrite list_lookup_insert_ne.
Qed.

Lemma run_task_activeScenes ch c w : activeScenes (run_task rt ch c w) = activeScenes w.
Proof.
  unfold run_task. destruct (tasks w !! c); [|done]. by destruct (loop_step _ _ _).
Qed.

Lemma run_task_length ch c w : length (tasks (run_task rt ch c w)) = length (tasks w).
Proof.
  unfold run_task. destruct (tasks w !! c); [|done]. destruct (loop_step _ _ _); simpl.
  by rewrite length_insert.
Qed.

Lemma Inv_exec w e : registered_iff_playing w → registered_iff_playing (exec rt w e).
Proof.
  destruct e as [d s|d|c ch]; simpl.
  - apply Inv_SetScene.
  - apply Inv_StopScene.
  - intros Hinv d c'. by rewrite run_task_playing, run_task_activeScenes.
Qed.

Lemma Inv_run es w : registered_iff_playing w → registered_iff_playing (run rt es w).
Proof.
  revert w. induction es as [|e es IH]; intros w Hinv; [done|].
  apply IH. by apply Inv_exec.
Qed.

Lemma Inv_init : registered_iff_playing NewSceneController.
Proof.
  intros d c. unfold playing; simpl. rewrite lookup_empty. split; [done|].
  intros (t & Ht & _). by rewrite lookup_nil in Ht.
Qed.

Lemma Inv_reachable es : registered_iff_playing (run rt es NewSceneController).
Proof. apply Inv_run, Inv_init. Qed.


(** *** Effects *)

Lemma trace_bounded_exec w e : trace_bounded w → trace_bounded (exec rt w e).
Proof.
  unfold trace_bounded. destruct e as [d s|d|c ch]; simpl.
  - unfold SetScene; simpl. rewrite length_app, StopScene_length, StopScene_trace.
    intros Hb. eapply Forall_impl; [exact Hb|]. simpl. intros; lia.
  - by rewrite StopScene_length, StopScene_trace.
  - intros Hb. rewrite run_task_length. unfold run_task.
    destruct (tasks w !! c) as [t|] eqn:E; [|done].
    destruct (loop_step rt ch t) as [next effects]; simpl.
    apply Forall_app. split; [done|].
    apply Forall_forall. intros [c' e] [e' [[= <- <-] _]]%list_elem_of_fmap.
    by eapply lookup_lt_Some.
Qed.

Lemma trace_bounded_run es w : trace_bounded w → trace_bounded (run rt es w).
Proof.
  revert w. induction es as [|e es IH]; intros w Hw; [done|].
  apply IH. by apply trace_bounded_exec.
Qed.

Lemma trace_bounded_reachable es : trace_bounded (run rt es NewSceneController).
Proof. apply trace_bounded_run. by apply Forall_nil. Qed.

Lemma idle_step s ch t :
  Palette_Color (Scene_Palette s) = [] → idle s t →
  ∃ next, loop_step rt ch t = (next, []) ∧ (next = Finished).
Proof.
  intros Hs [Hsc Hpc]. unfold loop_step. rewrite Hsc, Hs.
  destruct Hpc as [-> | ->]; simpl; eauto.
Qed.

Lemma kept_exec d s c w e :
  Palette_Color (Scene_Palette s) = [] →
  called_device e ≠ Some d →
  kept d s c w → kept d s c (exec rt w e).
Proof.
  intros Hs Hd ((t & Ht & Hidle) & Htr & Hreg).
  destruct e as [d' s'|d'|c' ch]; simpl in *.
  - assert (d' ≠ d) as Hne by congruence.
    unfold SetScene, kept; simpl. rewrite StopScene_trace.
    rewrite lookup_insert_ne, StopScene_other by done. split_and!; try done.
    unfold StopScene. destruct (activeScenes w !! d') as [c0|]; simpl.
    + destruct (decide (c0 = c)) as [->|Hc].
      * exists (cancel t). split; [|done].
        apply lookup_app_l_Some. by rewrite list_lookup_alter_eq, Ht.
      * exists t. split; [|done].
        apply lookup_app_l_Some. by rewrite list_lookup_alter_ne.
    + exists t. split; [|done]. by apply lookup_app_l_Some.
  - assert (d' ≠ d) as Hne by congruence.
    unfold kept. rewrite StopScene_trace, StopScene_other by done.
    split_and!; try done.
    unfold StopScene. destruct (activeScenes w !! d') as [c0|]; simpl; [|eauto].
    destruct (decide (c0 = c)) as [->|Hc].
    + exists (cancel t). by rewrite list_lookup_alter_eq, Ht.
    + exists t. by rewrite list_lookup_alter_ne.
  - unfold kept. rewrite run_task_activeScenes. unfold run_task.
    destruct (tasks w !! c') as [t'|] eqn:E; [|by eauto].
    destruct (decide (c' = c)) as [->|Hc].
    + simplify_eq. destruct (idle_step s ch t Hs Hidle) as (next & -> & ->). simpl.
      rewrite app_nil_r. split_and!; try done.
      eexists. rewrite list_lookup_insert_eq by (by eapply lookup_lt_Some).
      split; [done|]. destruct Hidle. split; simpl; auto.
    + destruct (loop_step rt ch t') as [next effects]; simpl. split_and!; try done.
      * exists t. by rewrite list_lookup_insert_ne.
      * apply Forall_app. split; [done|].
        apply Forall_forall. by intros [c0 e] [e' [[= <- <-] _]]%list_elem_of_fmap.
Qed.

Lemma kept_run d s c es w :
  Palette_Color (Scene_Palette s) = [] →
  Forall (λ e, called_device e ≠ Some d) es →
  kept d s c w → kept d s c (run rt es w).
Proof.
  intros Hs. revert w. induction es as [|e es IH]; intros w Hes Hk; [done|].
  apply Forall_cons in Hes as [He Hes]. simpl. apply IH; [done|].
  by apply kept_exec.
Qed.

Lemma kept_SetScene d s w :
  trace_bounded w → kept d s (length (tasks w)) (SetScene d s w).
Proof.
  intros Hb. unfold kept, SetScene; simpl.
  rewrite StopScene_length, StopScene_trace, lookup_insert_eq. split_and!; try done.
  - eexists. rewrite lookup_app_r by (rewrite StopScene_length; lia).
    rewrite StopScene_length, Nat.sub_diag. split; [done|].
    split; simpl; auto.
  - eapply Forall_impl; [exact Hb|]. simpl. intros; lia.
Qed.

End controller.

(** ** The scene controller: registrations and loops *)

(** C1. At any time the loops playing for a device are at most one, and
    it is the registered one. [SetScene d s] cancels and removes the
    registration of [d], if any, before it registers the new loop: the
    old loop does not play any more and is not the registered one. After
    [SetScene d s], following any sequence of calls and loop steps, and
    after a second [SetScene d s'] right behind it, [IsActive d] is true,
    [d] has its one registration, and exactly one loop plays for [d]: the
    one just started. (Calls are taken one at a time, as the claim has
    them.) *)
Theorem SetScene_single_loop (rt : Runtime) (es : list Event) (d : string) (s s' : Scene) :
  let w := run rt es NewSceneController in
  let w1 := SetScene d s w in
  let w2 := SetScene d s' w1 in
  (∀ d' c1 c2, playing w c1 d' → playing w c2 d' → c1 = c2) ∧
  (∀ c, activeScenes w !! d = Some c →
        playing w c d ∧ ¬ playing w1 c d ∧ activeScenes w1 !! d ≠ Some c) ∧
  (IsActive d w1 = true ∧ activeScenes w1 !! d = Some (length (tasks w)) ∧
   ∀ c, playing w1 c d ↔ c = length (tasks w)) ∧
  (IsActive d w2 = true ∧ activeScenes w2 !! d = Some (S (length (tasks w))) ∧
   ∀ c, playing w2 c d ↔ c = S (length (tasks w))).
Proof.
  intros w w1 w2.
  assert (registered_iff_playing w) as Hw by apply Inv_reachable.
  assert (registered_iff_playing w1) as Hw1 by by apply Inv_SetScene.
  assert (∀ v s0, registered_iff_playing v →
            IsActive d (SetScene d s0 v) = true ∧
            activeScenes (SetScene d s0 v) !! d = Some (length (tasks v)) ∧
            ∀ c, playing (SetScene d s0 v) c d ↔ c = length (tasks v)) as Hset.
  { intros v s0 Hv.
    assert (activeScenes (SetScene d s0 v) !! d = Some (length (tasks v))) as Hreg.
    { unfold SetScene; simpl. by rewrite StopScene_length, lookup_insert_eq. }
    split_and!; [by unfold IsActive; rewrite Hreg | done |].
    intros c. rewrite SetScene_playing by done. naive_solver. }
  assert (length (tasks w1) = S (length (tasks w))) as Hlen.
  { unfold w1, SetScene; simpl. rewrite length_app, StopScene_length. simpl. lia. }
  split; [|split; [|split]].
  - intros d' c1 c2 H1%Hw H2%Hw. congruence.
  - intros c Hc. pose proof (Hc) as Hp%Hw.
    assert (¬ playing w1 c d) as Hnp.
    { unfold w1. rewrite SetScene_playing by done. intros [[_ ->] | [? _]]; [|done].
      destruct Hp as (t & Ht%lookup_lt_Some & _). lia. }
    split_and!; [done | done |]. intros Hreg%Hw1. done.
  - apply Hset, Hw.
  - subst w2. rewrite <- Hlen. apply Hset, Hw1.
Qed.

(** C2, as the code has it. For a scene without colours, the loop that
    [SetScene d s] starts returns at its first step and has no effect:
    neither then nor later is there a device command (or a wait) of
    that loop. The loop does not touch the registration: as long as
    nobody calls the controller for [d], [IsActive d] stays true. *)
Theorem empty_palette_loop_is_silent
    (rt : Runtime) (es es' : list Event) (d : string) (s : Scene) :
  Palette_Color (Scene_Palette s) = [] →
  Forall (λ e, called_device e ≠ Some d) es' →
  let w := SetScene d s (run rt es NewSceneController) in
  let c := length (tasks (run rt es NewSceneController)) in
  (∀ ch, trace (run_task rt ch c w) = trace w ∧
         ∃ t, tasks (run_task rt ch c w) !! c = Some t ∧ Task_pc t = Finished) ∧
  Forall (λ e, e.1 ≠ c) (trace (run rt es' w)) ∧
  IsActive d (run rt es' w) = true.
Proof.
  intros Hs Hes' w c.
  assert (kept d s c w) as Hk by apply kept_SetScene, trace_bounded_reachable.
  split_and!.
  - intros ch. destruct Hk as ((t & Ht & Hidle) & _ & _).
    unfold run_task. rewrite Ht.
    destruct (idle_step rt s ch t Hs Hidle) as (next & -> & ->). simpl.
    rewrite app_nil_r. split; [done|]. eexists.
    rewrite list_lookup_insert_eq by (by eapply lookup_lt_Some). done.
  - by apply (kept_run rt d s c es' w Hs Hes') in Hk as (_ & ? & _).
  - apply (kept_run rt d s c es' w Hs Hes') in Hk as (_ & _ & Hreg).
    unfold IsActive. by rewrite Hreg.
Qed.

Lemma empty_palette_loop_is_silent_witness :
  Palette_Color (Scene_Palette no_colours) = [] ∧
  ∀ rt, IsActive "lamp"
          (run rt [LoopRuns 0 TakeTimer; LoopRuns 0 TakeDone]
               (SetScene "lamp" no_colours (run rt [] NewSceneController))) = true.
Proof.
  split; [reflexivity|]. intros rt.
  apply (empty_palette_loop_is_silent rt [] [LoopRuns 0 TakeTimer; LoopRuns 0 TakeDone]
           "lamp" no_colours).
  - reflexivity.
  - repeat constructor; discriminate.
Defined.

(** C2 as stated fails: after [SetScene "lamp" no_colours] on a new
    controller, no run of the loops (nor any call for another device)
    ever makes [IsActive "lamp"] false. *)
Lemma empty_palette_stays_active :
  ¬ ∃ rt es, Forall (λ e, called_device e ≠ Some "lamp") es ∧
             IsActive "lamp" (run rt es (SetScene "lamp" no_colours NewSceneController)) = false.
Proof.
  intros (rt & es & Hes & Hfalse).
  assert (kept "lamp" no_colours 0 (SetScene "lamp" no_colours NewSceneController)) as Hk.
  { apply (kept_SetScene "lamp" no_colours NewSceneController). by apply Forall_nil. }
  apply (kept_run rt _ _ _ es) in Hk as (_ & _ & Hreg); [|done|done].
  unfold IsActive in Hfalse. by rewrite Hreg in Hfalse.
Qed.

(** C3, at speed 1 with three colours: [timePerColor] is 6 s, not
    20/3 s, since the quotient is cut to an integer before it is
    multiplied by [time.Second]; a cycle of the three colours takes 18 s
    of waiting, not 20 s. The wait of a step is [timePerColor]. *)
Theorem timePerColor_three_colours (rt : Runtime) :
  timePerColor rt three_colours = 6 * second ∧
  3 * timePerColor rt three_colours = 18 * second ∧
  loop_step rt TakeTimer (mkTask "lamp" three_colours false (AtWait 0))
    = (AtColor 1, [Sleep (6 * second)]).
Proof. split_and!; vm_compute; reflexivity. Qed.

(** ** The colour engine *)

Lemma wrap64_id z : in_int64 z = true → wrap64 z = z.
Proof.
  unfold in_int64, wrap64. intros [H1 H2]%andb_prop.
  apply Z.leb_le in H1. apply Z.ltb_lt in H2.
  rewrite Z.mod_small; lia.
Qed.

Lemma in_int64_bounds z : - 2 ^ 63 ≤ z < 2 ^ 63 → in_int64 z = true.
Proof.
  intros H. unfold in_int64. apply andb_true_intro.
  split; [apply Z.leb_le | apply Z.ltb_lt]; lia.
Qed.

Lemma quot_million_bound m : m ≠ 0 → -1000000 ≤ Z.quot 1000000 m ≤ 1000000.
Proof.
  intros Hm. destruct (Z.lt_ge_cases m 0).
  - assert (Z.quot 1000000 m = - Z.quot 1000000 (- m)) as ->.
    { rewrite Z.quot_opp_r by done. lia. }
    assert (0 ≤ Z.quot 1000000 (- m) ≤ 1000000); [|lia].
    split; [apply Z.quot_pos; lia|].
    apply Z.quot_le_upper_bound; nia.
  - split; [assert (0 ≤ Z.quot 1000000 m) by (apply Z.quot_pos; lia); lia|].
    apply Z.quot_le_upper_bound; nia.
Qed.

(** Zeros through the conversion *)

Lemma is_finite_spec x : is_finite x = true → sf_finite (Prim2SF x) = true.
Proof.
  unfold is_finite, Prim2SF. destruct (is_nan x); [done|].
  destruct (is_zero x); [done|]. destruct (is_infinity x); [done|]. intros _.
  destruct (Z.frexp x) as [r e]. destruct (shr_fexp _ _ _ _ _) as [shr e'].
  by destruct (shr_m shr).
Qed.

Lemma nonzero_spec x :
  is_finite x = true → (x =? 0)%float = false → sf_nonzero (Prim2SF x) = true.
Proof.
  intros Hf%is_finite_spec. rewrite FloatAxioms.eqb_spec.
  change (Prim2SF 0) with (S754_zero false).
  by destruct (Prim2SF x) as [[]|[]| |[] ? ?].
Qed.

Lemma zero_mul_l a b :
  sf_zero (Prim2SF a) = true → sf_finite (Prim2SF b) = true → sf_zero (Prim2SF (a * b)) = true.
Proof.
  rewrite mul_spec. by destruct (Prim2SF a) as [?|?| |? ? ?], (Prim2SF b) as [?|?| |? ? ?].
Qed.

Lemma zero_mul_r a b :
  sf_finite (Prim2SF a) = true → sf_zero (Prim2SF b) = true → sf_zero (Prim2SF (a * b)) = true.
Proof.
  rewrite mul_spec. by destruct (Prim2SF a) as [?|?| |? ? ?], (Prim2SF b) as [?|?| |? ? ?].
Qed.

Lemma zero_div a b :
  sf_zero (Prim2SF a) = true → sf_nonzero (Prim2SF b) = true → sf_zero (Prim2SF (a / b)) = true.
Proof.
  rewrite div_spec. by destruct (Prim2SF a) as [?|?| |? ? ?], (Prim2SF b) as [?|?| |? ? ?].
Qed.

Lemma zero_add a b :
  sf_zero (Prim2SF a) = true → sf_zero (Prim2SF b) = true → sf_zero (Prim2SF (a + b)) = true.
Proof.
  rewrite add_spec.
  by destruct (Prim2SF a) as [[]|?| |? ? ?], (Prim2SF b) as [[]|?| |? ? ?].
Qed.

Lemma zero_finite a : sf_zero (Prim2SF a) = true → sf_finite (Prim2SF a) = true.
Proof. by destruct (Prim2SF a). Qed.

(** A zero goes through a channel as 0. *)
Lemma gammaChannel_zero rt v : sf_zero (Prim2SF v) = true → gammaChannel rt v = 0.
Proof.
  intros Hv. unfold gammaChannel, toGamma.
  assert ((v <=? 0.0031308)%float = true) as ->.
  { rewrite leb_spec. revert Hv. by destruct (Prim2SF v); [vm_compute| | |]. }
  assert (sf_zero (Prim2SF (12.92 * v * 255)) = true) as Hz.
  { apply zero_mul_l; [|by vm_compute]. apply zero_mul_r; [by vm_compute|done]. }
  unfold clamp.
  assert ((12.92 * v * 255 <? 0)%float = false) as ->.
  { rewrite ltb_spec. revert Hz. by destruct (Prim2SF (12.92 * v * 255)). }
  assert ((255 <? 12.92 * v * 255)%float = false) as ->.
  { rewrite ltb_spec. revert Hz. by destruct (Prim2SF (12.92 * v * 255)); [vm_compute| | |]. }
  unfold int_of_float, trunc_float. revert Hz. by destruct (Prim2SF (12.92 * v * 255)).
Qed.

Lemma linearRGB_zero p :
  is_finite (Coords_X p) = true → is_finite (Coords_Y p) = true →
  (Coords_Y p =? 0)%float = false →
  is_finite (1 - Coords_X p - Coords_Y p)%float = true →
  let '(rLin, gLin, bLin) := linearRGB p 0 in
  sf_zero (Prim2SF rLin) = true ∧ sf_zero (Prim2SF gLin) = true ∧ sf_zero (Prim2SF bLin) = true.
Proof.
  intros Hx%is_finite_spec Hy Hy0 Hz%is_finite_spec.
  pose proof (nonzero_spec _ Hy Hy0) as Hy'.
  unfold linearRGB. replace (float_of_int 0 / 100)%float with 0%float by (vm_compute; reflexivity).
  assert (sf_zero (Prim2SF 0) = true) as H0 by done.
  assert (sf_zero (Prim2SF (0 / Coords_Y p)) = true) as Hq by by apply zero_div.
  assert (sf_zero (Prim2SF (0 / Coords_Y p * Coords_X p)) = true) as HX by by apply zero_mul_l.
  assert (sf_zero (Prim2SF (0 / Coords_Y p * (1 - Coords_X p - Coords_Y p))) = true) as HZ
    by by apply zero_mul_l.
  split_and!; repeat apply zero_add; by apply zero_mul_l; [|vm_compute].
Qed.

Lemma digits2_pos_bound m : Zpos m < 2 ^ Zpos (digits2_pos m).
Proof.
  induction m as [m IH|m IH|]; simpl digits2_pos; [| |done];
    rewrite Pos2Z.inj_succ, Z.pow_succ_r by lia; lia.
Qed.

(** The mantissa of a binary64 number has at most 53 bits. *)
Lemma mantissa_bound f s m e : Prim2SF f = S754_finite s m e → Zpos m < 2 ^ 53.
Proof.
  intros E. pose proof (Prim2SF_valid f) as Hv. rewrite E in Hv.
  unfold valid_binary, bounded, canonical_mantissa, fexp in Hv.
  apply andb_prop in Hv as [Hc _]. apply Z.eqb_eq in Hc.
  assert (Zpos (digits2_pos m) ≤ 53) as Hd by (unfold prec in Hc; lia).
  pose proof (digits2_pos_bound m).
  assert (2 ^ Zpos (digits2_pos m) ≤ 2 ^ 53) by (apply Z.pow_le_mono_r; lia).
  lia.
Qed.

(** What [clamp] passes on to the conversion is in [0, 255], unless it
    is NaN. *)
Lemma clamp_channel_range rt f :
  is_nan f = false → 0 ≤ int_of_float rt (clamp f 0 255) ≤ 255.
Proof.
  intros Hnan. unfold clamp.
  destruct (f <? 0)%float eqn:Hlo; [by vm_compute|].
  destruct (255 <? f)%float eqn:Hhi; [by vm_compute|].
  assert (Prim2SF f ≠ S754_nan) as Hn by (rewrite <- is_nan_spec; congruence).
  rewrite ltb_spec in Hlo, Hhi.
  change (Prim2SF 0) with (S754_zero false) in Hlo.
  change (Prim2SF 255) with (S754_finite false 8972014882652160 (-45)) in Hhi.
  unfold int_of_float, trunc_float.
  destruct (Prim2SF f) as [s|s| |s m e] eqn:E; simpl.
  - done.
  - by destruct s.
  - done.
  - destruct s; [done|].
    pose proof (mantissa_bound f false m e E) as Hm.
    unfold SFltb, SFcompare in Hhi.
    assert (∃ p, e = Zneg p ∧ (45 ≤ Zpos p) ∧ (Zpos p = 45 → Zpos m ≤ 8972014882652160))
      as (p & -> & Hp & Hm45).
    { destruct (Z.compare_spec (-45) e) as [<-|?|?]; [|done|].
      - exists 45%positive. split_and!; [done|lia|]. intros _.
        change (Pos.compare_cont Eq 8972014882652160 m)
          with (Pos.compare 8972014882652160 m) in Hhi.
        destruct (Pos.compare_spec 8972014882652160 m) as [Hc|Hc|Hc]; [rewrite <- Hc; reflexivity|discriminate Hhi|apply Pos2Z.pos_lt_pos in Hc; apply Z.lt_le_incl, Hc].
      - destruct e as [|p|p]; [lia|lia|]. exists p. split_and!; [done|lia|lia]. }
    assert (0 ≤ Z.shiftr (Z.pos m) (Z.pos p) ≤ 255) as Hz.
    { rewrite Z.shiftr_div_pow2 by lia.
      assert (0 < 2 ^ Z.pos p) by (apply Z.pow_pos_nonneg; lia).
      split; [apply Z.div_pos; lia|].
      destruct (Z.eq_dec (Z.pos p) 45) as [Heq|Hne].
      - rewrite Heq. apply Z.div_le_upper_bound; [lia|]. specialize (Hm45 Heq). lia.
      - assert (2 ^ 46 ≤ 2 ^ Z.pos p) by (apply Z.pow_le_mono_r; lia).
        assert (Z.pos m / 2 ^ Z.pos p < 128); [|lia].
        apply Z.div_lt_upper_bound; [lia|]. lia. }
    rewrite in_int64_bounds by lia. done.
Qed.

(** C4, at a point of the edge [y = 0] of [unit_gamut], at full
    brightness: the point is in the gamut, the division by [y] gives an
    infinity, and the result is not black and not an error: blue is 255,
    red and green are the conversion of a NaN to [int], which Go leaves
    to the implementation. *)
Theorem coordsToRGB_y_zero (rt : Runtime) :
  isInGamut (mkCoords 0.5 0) unit_gamut = true ∧
  coordsToRGB rt 0.5 0 100 "" unit_gamut =
    (wrap64 (int_unrepresentable rt nan), wrap64 (int_unrepresentable rt nan), 255).
Proof.
  split; [vm_compute; reflexivity|].
  unfold coordsToRGB, xyBriToRGB.
  replace (linearRGB _ 100) with (nan, nan, infinity) by (vm_compute; reflexivity).
  unfold gammaChannel.
  replace (clamp (toGamma rt nan * 255) 0 255) with nan by (vm_compute; reflexivity).
  replace (clamp (toGamma rt infinity * 255) 0 255) with 255%float
    by (vm_compute; reflexivity).
  reflexivity.
Qed.

(** C5, as the code has it. For a light that is on, without a valid
    colour temperature and with [xy = (0, 0)], whose brightness [b] (the
    override if there is one, else the integer part of the reported
    value) is in [0, 100], [ColorToRGB] returns on all three channels the
    integer quotient [b * 255 / 100], a value of [0, 255]. *)
Theorem ColorToRGB_greyscale (rt : Runtime) (light : Light) (fixedBrightness : option Z) :
  On_On (Light_On light) = true →
  ColorTemperature_MirekValid (Light_ColorTemperature light) = false →
  (Coords_X (Color_XY (Light_Color light)) =? 0)%float = true →
  (Coords_Y (Color_XY (Light_Color light)) =? 0)%float = true →
  let brightness := match fixedBrightness with
                    | Some fb => fb
                    | None => int_of_float rt (Dimming_Brightness (Light_Dimming light))
                    end in
  0 ≤ brightness ≤ 100 →
  let v := brightness * 255 / 100 in
  ColorToRGB rt light fixedBrightness = Returns (v, v, v) ∧ 0 ≤ v ≤ 255.
Proof.
  intros Hon Hct Hx Hy brightness Hb v. unfold ColorToRGB.
  rewrite Hon, Hct, Hx, Hy. simpl. fold brightness.
  rewrite wrap64_id by (apply in_int64_bounds; lia).
  rewrite Z.quot_div_nonneg by lia. split; [done|].
  unfold v. split; [apply Z.div_pos; lia|].
  apply Z.div_le_upper_bound; lia.
Qed.

Lemma ColorToRGB_greyscale_witness :
  On_On (Light_On (grey_light 40)) = true ∧
  ∀ rt, ColorToRGB rt (grey_light 40) (Some 50) = Returns (127, 127, 127).
Proof.
  split; [reflexivity|]. intros rt.
  apply (ColorToRGB_greyscale rt (grey_light 40) (Some 50)); try reflexivity. simpl. lia.
Defined.

(** C5 as stated fails at brightness 1, reported or fixed: the nearest
    integer to 2.55 is 3, the code returns 2. *)
Lemma ColorToRGB_greyscale_not_rounded :
  round_brightness_255 1 = 3 ∧
  (∀ rt, ColorToRGB rt (grey_light 1) None = Returns (2, 2, 2)) ∧
  (∀ rt, ColorToRGB rt (grey_light 80) (Some 1) = Returns (2, 2, 2)).
Proof. split_and!; reflexivity. Qed.

(** C6. [coordsToRGB] converts the point corrected to [colorGamut]. A
    gamut is invalid exactly when its three vertices are the origin. The
    gamut supplied, when valid, is the one used; else the triangle
    [gamutMap] has for the gamut type; else, for a type that is none of
    A, B, C, the default triangle, which is the triangle of type C. For
    the zero gamut and type B the B triangle is used. *)
Theorem coordsToRGB_gamut_priority (rt : Runtime) (x y : float) (bri : Z)
    (gamutType : GamutType) (gamut : Gamut) :
  coordsToRGB rt x y bri gamutType gamut
    = xyBriToRGB rt (correctToGamut (mkCoords x y) (colorGamut gamutType gamut)) bri ∧
  (isValidGamut gamut = false ↔
     is_origin (Gamut_Red gamut) && is_origin (Gamut_Green gamut)
       && is_origin (Gamut_Blue gamut) = true) ∧
  (isValidGamut gamut = true → colorGamut gamutType gamut = gamut) ∧
  (isValidGamut gamut = false →
     ∀ g, gamutMap !! gamutType = Some g → colorGamut gamutType gamut = g) ∧
  (isValidGamut gamut = false →
     gamutMap !! gamutType = None → colorGamut gamutType gamut = defaultGamut) ∧
  (gamutMap !! gamutType = None ↔
     gamutType ≠ GamutTypeA ∧ gamutType ≠ GamutTypeB ∧ gamutType ≠ GamutTypeC) ∧
  gamutMap !! GamutTypeA
    = Some (mkGamut (mkCoords 0.704 0.296) (mkCoords 0.2151 0.7106) (mkCoords 0.138 0.08)) ∧
  gamutMap !! GamutTypeB
    = Some (mkGamut (mkCoords 0.675 0.322) (mkCoords 0.409 0.518) (mkCoords 0.167 0.04)) ∧
  gamutMap !! GamutTypeC = Some defaultGamut ∧
  colorGamut GamutTypeB Gamut_zero
    = mkGamut (mkCoords 0.675 0.322) (mkCoords 0.409 0.518) (mkCoords 0.167 0.04).
Proof.
  split; [reflexivity|]. split.
  { unfold isValidGamut, is_origin. rewrite negb_false_iff, !andb_assoc. done. }
  split; [by unfold colorGamut; intros ->|].
  split; [by unfold colorGamut; intros -> g ->|].
  split; [by unfold colorGamut; intros -> ->|].
  split.
  { unfold gamutMap. rewrite !lookup_insert_None, lookup_empty. naive_solver. }
  split_and!; reflexivity.
Qed.

Lemma findClosestPoint_edge_projection p1 p2 target :
  findClosestPoint p1 p2 target = edge_projection p1 p2 target.
Proof.
  unfold findClosestPoint, edge_projection, clamped_projection, projection_parameter,
    squared_length, distance.
  by destruct (_ <? 1e-10)%float.
Qed.

(** C7, as the code has it. The projection on an edge is the point
    [p1 + t * (p2 - p1)] at the parameter of the foot of the point,
    clamped to [0, 1] (the first end, for an edge of squared length
    below 1e-10), with its distance to the point, all in float64. A
    point in the gamut is returned as it is. For a point outside with a
    projection nearer than 1e10, the result is the projection on the
    first of the edges red-green, green-blue, blue-red whose distance
    is least: no projection is nearer, none of an earlier edge is as
    near, and the result lies on that edge. *)
Theorem correctToGamut_closest (point : Coords) (gamut : Gamut) :
  projections point gamut
    = [ edge_projection (Gamut_Red gamut) (Gamut_Green gamut) point;
        edge_projection (Gamut_Green gamut) (Gamut_Blue gamut) point;
        edge_projection (Gamut_Blue gamut) (Gamut_Red gamut) point ] ∧
  (isInGamut point gamut = true → correctToGamut point gamut = point) ∧
  (isInGamut point gamut = false →
   (∃ j q d, projections point gamut !! j = Some (q, d) ∧ (d <? 1e10)%float = true) →
   ∃ k q d,
     projections point gamut !! k = Some (q, d) ∧
     correctToGamut point gamut = q ∧
     (d <? 1e10)%float = true ∧
     (∀ j q' d', projections point gamut !! j = Some (q', d') → (d' <? d)%float = false) ∧
     (∀ j q' d', projections point gamut !! j = Some (q', d') → (j < k)%nat →
                 (d' <=? d)%float = false) ∧
     on_gamut_edge gamut k q).
Proof.
  split.
  { unfold projections, gamut_edges. simpl. by rewrite !findClosestPoint_edge_projection. }
  unfold correctToGamut. split; [by intros ->|]. intros -> (j & qj & dj & Hj & Hnear).
  rewrite fold_closest_step. fold (projections point gamut).
  destruct (fold_keep_closest (projections point gamut) 1e10 point)
    as [[_ Hnone] | (k & q & d & Hk & -> & Hlt & Hmin & Hfirst)].
  { rewrite (Hnone j qj dj Hj) in Hnear. done. }
  exists k, q, d. split_and!; try done.
  unfold projections in Hk. rewrite list_lookup_fmap in Hk.
  destruct (gamut_edges gamut !! k) as [edge|] eqn:E; [|done].
  exists edge. split; [done|]. injection Hk as Hk.
  by eapply findClosestPoint_on_segment.
Qed.

Lemma correctToGamut_closest_witness :
  isInGamut (mkCoords 0.8 0.2) defaultGamut = false ∧
  ∃ k q d,
    projections (mkCoords 0.8 0.2) defaultGamut !! k = Some (q, d) ∧
    correctToGamut (mkCoords 0.8 0.2) defaultGamut = q ∧
    (d <? 1e10)%float = true ∧
    (∀ j q' d', projections (mkCoords 0.8 0.2) defaultGamut !! j = Some (q', d') →
                (d' <? d)%float = false) ∧
    (∀ j q' d', projections (mkCoords 0.8 0.2) defaultGamut !! j = Some (q', d') →
                (j < k)%nat → (d' <=? d)%float = false) ∧
    on_gamut_edge defaultGamut k q.
Proof.
  split; [vm_compute; reflexivity|].
  apply (correctToGamut_closest (mkCoords 0.8 0.2) defaultGamut); [vm_compute; reflexivity|].
  eexists 0%nat, _, _. split; [vm_compute; reflexivity | vm_compute; reflexivity].
Defined.

(** C7 as stated fails in the default gamut: the middle of the edge
    red-green, as float64 has it, fails the barycentric test and is its
    own projection; and a point 2e10 away, farther than the bound 1e10
    the search starts from, is returned as it is, on no edge. *)
Lemma correctToGamut_fixes_outside_points :
  let on_edge := mkCoords 0.43075000000000002 0.50414999999999999 in
  let far := mkCoords 2e10 0 in
  (isInGamut on_edge defaultGamut = false ∧ correctToGamut on_edge defaultGamut = on_edge) ∧
  (isInGamut far defaultGamut = false ∧ correctToGamut far defaultGamut = far).
Proof. vm_compute. repeat split. Qed.

(** C8. The conversion at the blue vertex of [low_blue_gamut], a
    triangle whose blue corner lies 1e-13 above the line [y = 0]: the
    point is in the gamut, the correction is the identity, and red is 3
    at brightness 59 and 0 at brightness 60. The channel falls as the
    brightness rises: the quotient [Y / y] by the small [y] makes the
    terms of the red sum of the order of 1e12, and what is left after
    they cancel is decided by their rounding. *)
Theorem coordsToRGB_red_falls :
  isInGamut low_blue low_blue_gamut = true ∧
  correctToGamut low_blue low_blue_gamut = low_blue ∧
  ∀ rt, (coordsToRGB rt (Coords_X low_blue) (Coords_Y low_blue) 59 "" low_blue_gamut).1.1 = 3 ∧
        (coordsToRGB rt (Coords_X low_blue) (Coords_Y low_blue) 60 "" low_blue_gamut).1.1 = 0.
Proof.
  split; [vm_compute; reflexivity|]. split; [vm_compute; reflexivity|].
  intros rt. unfold coordsToRGB, xyBriToRGB.
  replace (correctToGamut _ _) with low_blue by (vm_compute; reflexivity).
  split.
  - let v := eval vm_compute in (linearRGB low_blue 59) in
    replace (linearRGB low_blue 59) with v by (vm_compute; reflexivity).
    cbn [fst]. vm_compute. reflexivity.
  - let v := eval vm_compute in (linearRGB low_blue 60) in
    replace (linearRGB low_blue 60) with v by (vm_compute; reflexivity).
    cbn [fst]. vm_compute. reflexivity.
Qed.

(** C9. A light that is off gives (0, 0, 0), whatever its other fields
    and the fixed brightness. *)
Theorem ColorToRGB_off (rt : Runtime) (light : Light) (fixedBrightness : option Z) :
  On_On (Light_On light) = false →
  ColorToRGB rt light fixedBrightness = Returns (0, 0, 0).
Proof. intros Hoff. unfold ColorToRGB. by rewrite Hoff. Qed.

Lemma ColorToRGB_off_witness :
  On_On (Light_On dark_light) = false ∧
  ∀ rt, ColorToRGB rt dark_light (Some 100) = Returns (0, 0, 0).
Proof.
  split; [reflexivity|]. intros rt. apply (ColorToRGB_off rt dark_light (Some 100)).
  reflexivity.
Defined.

(** C10, as the code has it. For a light that is on and whose mirek is
    flagged valid, [ColorToRGB] panics exactly when the mirek is zero;
    otherwise it returns [ctToRGB] of the kelvin [1000000 / mirek],
    truncated towards zero, and of the brightness; for a positive mirek
    that kelvin is the integer quotient. *)
Theorem ColorToRGB_mirek (rt : Runtime) (light : Light) (fixedBrightness : option Z) :
  On_On (Light_On light) = true →
  ColorTemperature_MirekValid (Light_ColorTemperature light) = true →
  let mirek := ColorTemperature_Mirek (Light_ColorTemperature light) in
  let brightness := match fixedBrightness with
                    | Some fb => fb
                    | None => int_of_float rt (Dimming_Brightness (Light_Dimming light))
                    end in
  (mirek = 0 ↔ ColorToRGB rt light fixedBrightness = Panics) ∧
  (mirek ≠ 0 →
   ColorToRGB rt light fixedBrightness = Returns (ctToRGB rt (Z.quot 1000000 mirek) brightness)) ∧
  (0 < mirek → Z.quot 1000000 mirek = 1000000 / mirek).
Proof.
  intros Hon Hvalid mirek brightness. unfold ColorToRGB. rewrite Hon, Hvalid. simpl.
  fold mirek. unfold int_div.
  assert (mirek ≠ 0 → wrap64 (Z.quot 1000000 mirek) = Z.quot 1000000 mirek) as Hw.
  { intros Hm. apply wrap64_id, in_int64_bounds.
    pose proof (quot_million_bound mirek Hm). lia. }
  destruct (Z.eqb_spec mirek 0) as [->|Hm].
  - split_and!; [done | done | lia].
  - rewrite Hw by done. split_and!; [split; [done | discriminate] | by destruct fixedBrightness |].
    intros Hpos. apply Z.quot_div_nonneg; lia.
Qed.

Lemma ColorToRGB_mirek_witness :
  On_On (Light_On warm_light) = true ∧
  ColorTemperature_MirekValid (Light_ColorTemperature warm_light) = true ∧
  ∀ rt, ColorToRGB rt warm_light None = Returns (ctToRGB rt 2732 80).
Proof.
  split; [reflexivity|]. split; [reflexivity|]. intros rt.
  apply (ColorToRGB_mirek rt warm_light None); [reflexivity | reflexivity | discriminate].
Defined.

(** C10 as stated fails for a light that is off: its mirek is flagged
    valid and is zero, and nothing is divided. *)
Lemma ColorToRGB_mirek_zero_off :
  ColorTemperature_MirekValid (Light_ColorTemperature dark_light) = true ∧
  ColorTemperature_Mirek (Light_ColorTemperature dark_light) = 0 ∧
  ∀ rt fixedBrightness, ColorToRGB rt dark_light fixedBrightness = Returns (0, 0, 0).
Proof. split_and!; reflexivity. Qed.

(** * Further properties of the code *)

(** ** Runs of one playback loop *)

Lemma step_task_fields rt ch t :
  Task_device (step_task rt ch t).1 = Task_device t ∧
  Task_scene (step_task rt ch t).1 = Task_scene t ∧
  Task_cancelled (step_task rt ch t).1 = Task_cancelled t.
Proof. unfold step_task. by destruct (loop_step rt ch t). Qed.

Lemma run_loop_app rt chs1 chs2 t :
  run_loop rt (chs1 ++ chs2) t =
  let '(t1, e1) := run_loop rt chs1 t in
  let '(t2, e2) := run_loop rt chs2 t1 in
  (t2, e1 ++ e2).
Proof.
  revert t. induction chs1 as [|ch chs1 IH]; intros t; simpl.
  - by destruct (run_loop rt chs2 t).
  - destruct (step_task rt ch t) as [t1 e1]. rewrite IH.
    destruct (run_loop rt chs1 t1) as [t2 e2].
    destruct (run_loop rt chs2 t2) as [t3 e3]. by rewrite app_assoc.
Qed.

Lemma applyPaletteColor_commands rt goveeDeviceID scene paletteColor :
  applyPaletteColor rt goveeDeviceID scene paletteColor
  = [colorCommand rt goveeDeviceID scene paletteColor;
     brightnessCommand rt goveeDeviceID scene].
Proof.
  unfold applyPaletteColor, colorCommand, brightnessCommand.
  by destruct (coordsToRGB _ _ _ _ _ _) as [[r g] b].
Qed.

Lemma colorCommand_is_command rt goveeDeviceID scene paletteColor :
  is_command (colorCommand rt goveeDeviceID scene paletteColor) = true.
Proof. unfold colorCommand. by destruct (coordsToRGB _ _ _ _ _ _) as [[r g] b]. Qed.

(** A step on a cancelled context: what it hands over is the head of
    what was pending, and the position moves towards the return. *)
Lemma cancelled_step rt ch t :
  Task_cancelled t = true →
  let '(t', es) := step_task rt ch t in
  commands es ++ pending_commands rt t' = pending_commands rt t ∧
  Task_cancelled t' = true ∧
  (steps_to_return t' ≤ pred (steps_to_return t))%nat.
Proof.
  intros Hc. unfold step_task, loop_step, steps_to_return, pending_commands, colours.
  rewrite Hc.
  destruct (Task_pc t) as [| |i|i|i|i|];
    cbn -[colorCommand brightnessCommand applyPaletteColor].
  - destruct (length _ =? 0)%nat; simpl; split_and!; auto.
  - split_and!; auto.
  - destruct (_ !! i); simpl; split_and!; auto.
  - destruct (_ !! i) as [paletteColor|];
      cbn -[colorCommand brightnessCommand applyPaletteColor]; [|split_and!; auto].
    rewrite colorCommand_is_command, applyPaletteColor_commands. split_and!; auto.
  - split_and!; auto.
  - destruct ch; simpl; split_and!; auto.
  - split_and!; auto.
Qed.

Lemma cancelled_run rt chs t :
  Task_cancelled t = true →
  commands (run_loop rt chs t).2 ++ pending_commands rt (run_loop rt chs t).1
  = pending_commands rt t ∧
  (steps_to_return (run_loop rt chs t).1 ≤ steps_to_return t - length chs)%nat.
Proof.
  revert t. induction chs as [|ch chs IH]; intros t Hc; simpl.
  - split; [done | lia].
  - pose proof (cancelled_step rt ch t Hc) as H.
    destruct (step_task rt ch t) as [t1 e1]. destruct H as (He1 & Hc1 & Hm).
    specialize (IH t1 Hc1). destruct (run_loop rt chs t1) as [t2 e2]. simpl in *.
    destruct IH as [He2 Hm2]. split; [|lia].
    unfold commands in *. by rewrite List.filter_app, <- app_assoc, He2.
Qed.

Lemma returned_nothing_pending rt t : steps_to_return t = 0%nat → pending_commands rt t = [].
Proof. unfold steps_to_return, pending_commands. by destruct (Task_pc t). Qed.

(** X1. After its context was cancelled a playback loop hands to the
    Govee client at most the commands of the palette entry it had begun:
    the colour and the brightness when it was past the inner select, the
    brightness when the colour was out, nothing when it stood at a
    select or in its wait; whatever is chosen at its selects. It has
    returned after five steps at the latest. *)
Theorem cancelled_loop_returns (rt : Runtime) (chs : list Choice) (t : Task) :
  Task_cancelled t = true →
  commands (run_loop rt chs t).2 `prefix_of` pending_commands rt t ∧
  ((5 ≤ length chs)%nat →
   Task_pc (run_loop rt chs t).1 = Finished ∧
   commands (run_loop rt chs t).2 = pending_commands rt t).
Proof.
  intros Hc. destruct (cancelled_run rt chs t Hc) as [He Hm]. split.
  - exists (pending_commands rt (run_loop rt chs t).1). by rewrite He.
  - intros Hlen.
    assert (steps_to_return t ≤ 5)%nat
      by (unfold steps_to_return; by destruct (Task_pc t); lia).
    assert (steps_to_return (run_loop rt chs t).1 = 0)%nat as H0 by lia.
    rewrite (returned_nothing_pending rt _ H0), app_nil_r in He. split; [|done].
    unfold steps_to_return in H0. by destruct (Task_pc (run_loop rt chs t).1).
Qed.

Lemma cancelled_loop_returns_witness :
  Task_cancelled (mkTask "lamp" three_colours true (AtSetColor 1)) = true ∧
  ∀ rt, Task_pc (run_loop rt (repeat TakeTimer 5)
                   (mkTask "lamp" three_colours true (AtSetColor 1))).1 = Finished ∧
        commands (run_loop rt (repeat TakeTimer 5)
                    (mkTask "lamp" three_colours true (AtSetColor 1))).2
        = applyPaletteColor rt "lamp" three_colours
            (mkPaletteColor (mkCoords 0.3 0.3) (mkDimming 100)).
Proof.
  split; [reflexivity|]. intros rt.
  apply (cancelled_loop_returns rt (repeat TakeTimer 5)
           (mkTask "lamp" three_colours true (AtSetColor 1))); [reflexivity | simpl; lia].
Defined.

(** X2. A playback loop on a palette with colours never returns as
    long as its context is not cancelled. *)
Theorem live_loop_never_returns (rt : Runtime) (chs : list Choice) (t : Task) :
  Task_cancelled t = false →
  colours t ≠ [] →
  Task_pc t ≠ Finished →
  Task_pc (run_loop rt chs t).1 ≠ Finished.
Proof.
  revert t. induction chs as [|ch chs IH]; intros t Hc Hp Hpc; simpl; [done|].
  pose proof (step_task_fields rt ch t) as (Hd & Hs & Hc').
  assert (Task_pc (step_task rt ch t).1 ≠ Finished) as Hpc'.
  { unfold step_task, loop_step. unfold colours in Hp. rewrite Hc.
    destruct (Task_pc t) as [| |i|i|i|i|]; simpl; try done.
    - destruct (Palette_Color (Scene_Palette (Task_scene t))); [done|]. simpl. done.
    - by destruct (_ !! i).
    - by destruct (_ !! i).
    - by destruct ch. }
  destruct (step_task rt ch t) as [t1 e1]. simpl in *.
  specialize (IH t1). destruct (run_loop rt chs t1) as [t2 e2]. simpl in *.
  apply IH; [congruence | by unfold colours in *; rewrite Hs | done].
Qed.

Lemma live_loop_never_returns_witness :
  Task_cancelled (mkTask "lamp" three_colours false AtEntry) = false ∧
  ∀ rt, Task_pc (run_loop rt (repeat TakeTimer 40)
                   (mkTask "lamp" three_colours false AtEntry)).1 ≠ Finished.
Proof.
  split; [reflexivity|]. intros rt.
  apply (live_loop_never_returns rt (repeat TakeTimer 40)
           (mkTask "lamp" three_colours false AtEntry));
    [reflexivity | discriminate | discriminate].
Defined.

(** The steps of a live loop, one position at a time. *)
Lemma step_at_top rt ch t :
  Task_cancelled t = false → step_task rt ch (at_pc t AtLoopTop) = (at_pc t (AtColor 0), []).
Proof. intros Hc. unfold step_task, loop_step, at_pc; simpl. by rewrite Hc. Qed.

Lemma step_past_palette rt ch t i :
  colours t !! i = None → step_task rt ch (at_pc t (AtColor i)) = (at_pc t AtLoopTop, []).
Proof.
  intros Hi. unfold colours in Hi. unfold step_task, loop_step, at_pc; simpl.
  by rewrite Hi.
Qed.

Lemma step_at_color rt ch t i paletteColor :
  Task_cancelled t = false → colours t !! i = Some paletteColor →
  step_task rt ch (at_pc t (AtColor i)) = (at_pc t (AtSetColor i), []).
Proof.
  intros Hc Hi. unfold colours in Hi. unfold step_task, loop_step, at_pc; simpl.
  by rewrite Hi, Hc.
Qed.

Lemma step_at_set_color rt ch t i paletteColor :
  colours t !! i = Some paletteColor →
  step_task rt ch (at_pc t (AtSetColor i))
  = (at_pc t (AtSetBrightness i),
     [colorCommand rt (Task_device t) (Task_scene t) paletteColor]).
Proof.
  intros Hi. unfold colours in Hi. unfold step_task, loop_step, at_pc; simpl.
  by rewrite Hi.
Qed.

Lemma step_at_set_brightness rt ch t i :
  step_task rt ch (at_pc t (AtSetBrightness i))
  = (at_pc t (AtWait i), [brightnessCommand rt (Task_device t) (Task_scene t)]).
Proof. done. Qed.

Lemma step_at_wait rt ch t i :
  Task_cancelled t = false →
  step_task rt ch (at_pc t (AtWait i))
  = (at_pc t (AtColor (S i)), [Sleep (timePerColor rt (Task_scene t))]).
Proof. intros Hc. unfold step_task, loop_step, at_pc; simpl. rewrite Hc. by destruct ch. Qed.

(** From palette index [i], a live loop plays the rest of the palette
    and comes back to the top. *)
Lemma rest_of_pass rt t :
  Task_cancelled t = false →
  ∀ rest i chs,
    drop i (colours t) = rest →
    length chs = (4 * length rest + 1)%nat →
    run_loop rt chs (at_pc t (AtColor i))
    = (at_pc t AtLoopTop, flat_map (palette_step rt t) rest).
Proof.
  intros Hc rest. induction rest as [|c rest IH]; intros i chs Hdrop Hlen.
  - simpl in Hlen. destruct chs as [|ch [|??]]; simpl in Hlen; [lia | | lia]. cbn [run_loop].
    rewrite step_past_palette; [done|].
    apply lookup_ge_None. apply (f_equal length) in Hdrop.
    rewrite length_drop in Hdrop. simpl in Hdrop. lia.
  - simpl in Hlen.
    destruct chs as [|ch1 [|ch2 [|ch3 [|ch4 chs]]]]; simpl in Hlen; [lia | lia | lia | lia |].
    assert (colours t !! i = Some c) as Hi.
    { rewrite <- (Nat.add_0_r i), <- lookup_drop, Hdrop. done. }
    assert (drop (S i) (colours t) = rest) as Hrest.
    { rewrite <- (Nat.add_1_r i), <- drop_drop, Hdrop. done. }
    cbn [run_loop].
    rewrite (step_at_color rt ch1 t i c Hc Hi), (step_at_set_color rt ch2 t i c Hi),
      (step_at_set_brightness rt ch3 t i), (step_at_wait rt ch4 t i Hc).
    rewrite (IH (S i) chs Hrest) by lia.
    cbn [flat_map]. unfold palette_step at 2. rewrite applyPaletteColor_commands.
    by rewrite <- !app_assoc.
Qed.

(** X3. One pass of a loop that is not cancelled, from the outer select
    back to it (four steps for each colour, and two): for each colour of
    the palette, in the order of the palette, the colour command, the
    brightness command and the wait of [timePerColor]; nothing else. *)
Theorem pass_in_palette_order (rt : Runtime) (chs : list Choice) (t : Task) :
  Task_cancelled t = false →
  length chs = (4 * length (colours t) + 2)%nat →
  run_loop rt chs (at_pc t AtLoopTop)
  = (at_pc t AtLoopTop, flat_map (palette_step rt t) (colours t)).
Proof.
  intros Hc Hlen. destruct chs as [|ch chs]; simpl in Hlen; [lia|].
  cbn [run_loop]. rewrite (step_at_top rt ch t Hc).
  by rewrite (rest_of_pass rt t Hc (colours t) 0%nat chs) by (done || lia).
Qed.

Lemma pass_in_palette_order_witness :
  Task_cancelled (mkTask "lamp" three_colours false AtLoopTop) = false ∧
  ∀ rt, (run_loop rt (repeat TakeTimer 14) (mkTask "lamp" three_colours false AtLoopTop)).1
        = mkTask "lamp" three_colours false AtLoopTop.
Proof.
  split; [reflexivity|]. intros rt.
  exact (f_equal fst (pass_in_palette_order rt (repeat TakeTimer 14)
                        (mkTask "lamp" three_colours false AtLoopTop) eq_refl eq_refl)).
Defined.

(** ** The controller and its loops *)

Lemma applyPaletteColor_matches rt t paletteColor e :
  paletteColor ∈ colours t →
  e ∈ applyPaletteColor rt (Task_device t) (Task_scene t) paletteColor →
  effect_matches_task rt t e.
Proof.
  intros Hin. unfold applyPaletteColor.
  destruct (coordsToRGB _ _ _ _ _ _) as [[r g] b] eqn:E.
  intros [->|[->|[]%elem_of_nil]%elem_of_cons]%elem_of_cons; simpl; [|done].
  split; [done|]. exists paletteColor. by rewrite E.
Qed.

Lemma loop_step_matches rt ch t e :
  e ∈ (loop_step rt ch t).2 → effect_matches_task rt t e.
Proof.
  unfold loop_step. destruct (Task_pc t) as [| |i|i|i|i|]; simpl.
  - destruct (length _ =? 0)%nat; by intros ?%elem_of_nil.
  - destruct (Task_cancelled t); by intros ?%elem_of_nil.
  - destruct (_ !! i) as [c|] eqn:Hi; [|by intros ?%elem_of_nil].
    by destruct (Task_cancelled t); intros ?%elem_of_nil.
  - destruct (_ !! i) as [c|] eqn:Hi; [|by intros ?%elem_of_nil].
    intros ->%list_elem_of_singleton.
    apply (applyPaletteColor_matches rt t c); [by eapply list_elem_of_lookup_2|].
    rewrite applyPaletteColor_commands. by left.
  - intros ->%list_elem_of_singleton. done.
  - destruct ch, (Task_cancelled t); simpl;
      first [by intros ?%elem_of_nil | by intros ->%list_elem_of_singleton].
  - by intros ?%elem_of_nil.
Qed.

Lemma effect_matches_task_fields rt t t' e :
  Task_device t' = Task_device t → Task_scene t' = Task_scene t →
  effect_matches_task rt t e → effect_matches_task rt t' e.
Proof.
  intros Hd Hs. unfold effect_matches_task, colours. rewrite Hd, Hs. done.
Qed.

(** The device and the scene of a task stay. *)
Lemma exec_task_stable rt w ev c t :
  tasks w !! c = Some t →
  ∃ t', tasks (exec rt w ev) !! c = Some t' ∧
        Task_device t' = Task_device t ∧ Task_scene t' = Task_scene t.
Proof.
  intros Ht.
  assert (∀ d, ∃ t', tasks (StopScene d w) !! c = Some t' ∧
                     Task_device t' = Task_device t ∧ Task_scene t' = Task_scene t) as Hstop.
  { intros d. unfold StopScene. destruct (activeScenes w !! d) as [c0|]; simpl; [|eauto].
    destruct (decide (c0 = c)) as [->|Hne].
    - exists (cancel t). by rewrite list_lookup_alter_eq, Ht.
    - exists t. by rewrite list_lookup_alter_ne. }
  destruct ev as [d s|d|c0 ch]; simpl.
  - destruct (Hstop d) as (t' & Ht' & ?). exists t'. split; [|done].
    unfold SetScene; simpl. by apply lookup_app_l_Some.
  - apply Hstop.
  - unfold run_task. destruct (tasks w !! c0) as [t0|] eqn:E; [|eauto].
    destruct (loop_step rt ch t0) as [next effects]; simpl.
    destruct (decide (c0 = c)) as [->|Hne].
    + simplify_eq. eexists. rewrite list_lookup_insert_eq by (by eapply lookup_lt_Some). done.
    + exists t. by rewrite list_lookup_insert_ne.
Qed.

Lemma trace_explained_exec rt w ev : trace_explained rt w → trace_explained rt (exec rt w ev).
Proof.
  intros Hw c e Hin.
  assert ((c, e) ∈ trace w ∨
          ∃ t ch, ev = LoopRuns c ch ∧ tasks w !! c = Some t ∧ e ∈ (loop_step rt ch t).2)
    as [Hold|Hnew].
  { destruct ev as [d s|d|c0 ch]; simpl in Hin.
    - left. unfold SetScene in Hin; simpl in Hin. by rewrite StopScene_trace in Hin.
    - left. by rewrite StopScene_trace in Hin.
    - unfold run_task in Hin. destruct (tasks w !! c0) as [t0|] eqn:E; [|by left].
      destruct (loop_step rt ch t0) as [next effects] eqn:Hstep; simpl in Hin.
      apply elem_of_app in Hin as [?|Hin]; [by left|]. right.
      apply list_elem_of_fmap in Hin as (e' & [= <- <-] & He').
      exists t0, ch. by rewrite Hstep. }
  - destruct (Hw c e Hold) as (t & Ht & Hm).
    destruct (exec_task_stable rt w ev c t Ht) as (t' & Ht' & Hd & Hs).
    exists t'. split; [done|]. by eapply effect_matches_task_fields.
  - destruct Hnew as (t & ch & -> & Ht & He).
    destruct (exec_task_stable rt w (LoopRuns c ch) c t Ht) as (t' & Ht' & Hd & Hs).
    exists t'. split; [done|]. eapply effect_matches_task_fields; [done|done|].
    by eapply loop_step_matches.
Qed.

(** X4. Whatever the driver calls and however the loops are scheduled,
    every effect of a loop is a command to the device the loop was
    started for, for a colour of the palette of its scene at the mean
    brightness of the scene's actions, or a wait of the scene's
    [timePerColor]. *)
Theorem loops_send_their_own (rt : Runtime) (es : list Event) :
  let w := run rt es NewSceneController in
  Forall (λ ce, ∃ t, tasks w !! ce.1 = Some t ∧ effect_matches_task rt t ce.2) (trace w).
Proof.
  intros w. apply Forall_forall. intros [c e]. simpl. subst w. unfold run.
  assert (trace_explained rt NewSceneController) as H0 by (by intros ?? ?%elem_of_nil).
  revert H0. generalize NewSceneController.
  induction es as [|ev es IH]; intros w Hw; simpl; [apply Hw|].
  apply IH. by apply trace_explained_exec.
Qed.

(** X5. In every state the controller can reach: after [StopScene] the
    device is not active and no loop plays for it; on a device that is
    not active [StopScene] changes nothing; stopping twice is stopping
    once. *)
Theorem StopScene_stops (rt : Runtime) (es : list Event) (d : string) :
  let w := run rt es NewSceneController in
  let w' := StopScene d w in
  IsActive d w' = false ∧
  (∀ c, ¬ playing w' c d) ∧
  (IsActive d w = false → w' = w) ∧
  StopScene d w' = w'.
Proof.
  intros w w'. assert (registered_iff_playing w) as Hw by apply Inv_reachable.
  assert (activeScenes w' !! d = None) as Hnone by apply StopScene_unregisters.
  split_and!.
  - unfold IsActive. by rewrite Hnone.
  - intros c Hp. apply (Inv_StopScene d w Hw) in Hp. subst w'. congruence.
  - unfold IsActive. subst w'. unfold StopScene. by destruct (activeScenes w !! d).
  - unfold StopScene at 1. by rewrite Hnone.
Qed.

(** X6. A call for one device, and a step of any loop, leave the
    registration and the playing loops of every other device as they
    are. *)
Theorem other_devices_untouched (rt : Runtime) (es : list Event) (ev : Event) (d : string) :
  called_device ev ≠ Some d →
  let w := run rt es NewSceneController in
  IsActive d (exec rt w ev) = IsActive d w ∧
  activeScenes (exec rt w ev) !! d = activeScenes w !! d ∧
  ∀ c, playing (exec rt w ev) c d ↔ playing w c d.
Proof.
  intros Hev w. assert (registered_iff_playing w) as Hw by apply Inv_reachable.
  assert (activeScenes (exec rt w ev) !! d = activeScenes w !! d) as Hreg.
  { destruct ev as [d' s|d'|c ch]; simpl in *.
    - assert (d' ≠ d) by congruence. unfold SetScene; simpl.
      by rewrite lookup_insert_ne, StopScene_other.
    - assert (d' ≠ d) by congruence. by rewrite StopScene_other.
    - by rewrite run_task_activeScenes. }
  split_and!; [by unfold IsActive; rewrite Hreg | done |].
  intros c. destruct ev as [d' s|d'|c0 ch]; simpl in *.
  - assert (d' ≠ d) by congruence. rewrite SetScene_playing by done. naive_solver.
  - assert (d' ≠ d) by congruence. rewrite StopScene_playing by done. naive_solver.
  - apply run_task_playing.
Qed.

Lemma other_devices_untouched_witness :
  called_device (CallStopScene "lamp") ≠ Some "desk" ∧
  ∀ rt, IsActive "desk" (exec rt (run rt [CallSetScene "desk" three_colours;
                                          CallSetScene "lamp" no_colours] NewSceneController)
                           (CallStopScene "lamp")) = true.
Proof.
  split; [discriminate|]. intros rt.
  destruct (other_devices_untouched rt [CallSetScene "desk" three_colours;
              CallSetScene "lamp" no_colours] (CallStopScene "lamp") "desk") as [-> _];
    [discriminate | reflexivity].
Defined.

(** X7. [StopScene] cancels the context of the loop that was registered
    for the device and does not wait for it. From then on that loop
    hands to the Govee client at most the commands of the palette entry
    it had begun (the colour and the brightness when it was past the
    inner select, the brightness when the colour was out, nothing when
    it stood at a select or in its wait), and it has returned after five
    steps at the latest. *)
Theorem stopped_loop_winds_down (rt : Runtime) (es : list Event) (d : string) (c : nat)
    (chs : list Choice) :
  let w := run rt es NewSceneController in
  activeScenes w !! d = Some c →
  ∃ t, tasks w !! c = Some t ∧
       tasks (StopScene d w) !! c = Some (cancel t) ∧
       commands (run_loop rt chs (cancel t)).2 `prefix_of` pending_commands rt t ∧
       ((5 ≤ length chs)%nat →
        Task_pc (run_loop rt chs (cancel t)).1 = Finished ∧
        commands (run_loop rt chs (cancel t)).2 = pending_commands rt t).
Proof.
  intros w Hc. assert (registered_iff_playing w) as Hw by apply Inv_reachable.
  pose proof Hc as (t & Ht & Hd & _)%Hw.
  exists t. split; [done|]. split.
  - unfold StopScene. rewrite Hc. simpl. by rewrite list_lookup_alter_eq, Ht.
  - change (pending_commands rt t) with (pending_commands rt (cancel t)).
    destruct (cancelled_run rt chs (cancel t) eq_refl) as [He Hm]. split.
    + exists (pending_commands rt (run_loop rt chs (cancel t)).1). by rewrite He.
    + intros Hlen.
      assert (steps_to_return (cancel t) ≤ 5)%nat
        by (unfold steps_to_return; by destruct (Task_pc (cancel t)); lia).
      assert (steps_to_return (run_loop rt chs (cancel t)).1 = 0)%nat as H0 by lia.
      rewrite (returned_nothing_pending rt _ H0), app_nil_r in He. split; [|done].
      unfold steps_to_return in H0. by destruct (Task_pc (run_loop rt chs (cancel t)).1).
Qed.

Lemma stopped_loop_winds_down_witness :
  IsActive "lamp" (SetScene "lamp" three_colours NewSceneController) = true ∧
  ∀ rt, ∃ t,
    tasks (run rt [CallSetScene "lamp" three_colours; LoopRuns 0 TakeTimer;
                   LoopRuns 0 TakeTimer; LoopRuns 0 TakeTimer] NewSceneController)
      !! 0%nat = Some t ∧
    tasks (StopScene "lamp"
             (run rt [CallSetScene "lamp" three_colours; LoopRuns 0 TakeTimer;
                      LoopRuns 0 TakeTimer; LoopRuns 0 TakeTimer] NewSceneController))
      !! 0%nat = Some (cancel t) ∧
    commands (run_loop rt (repeat TakeTimer 5) (cancel t)).2
      `prefix_of` pending_commands rt t ∧
    ((5 ≤ 5)%nat →
     Task_pc (run_loop rt (repeat TakeTimer 5) (cancel t)).1 = Finished ∧
     commands (run_loop rt (repeat TakeTimer 5) (cancel t)).2 = pending_commands rt t).
Proof.
  split; [reflexivity|]. intros rt.
  apply (stopped_loop_winds_down rt
           [CallSetScene "lamp" three_colours; LoopRuns 0 TakeTimer;
            LoopRuns 0 TakeTimer; LoopRuns 0 TakeTimer] "lamp" 0 (repeat TakeTimer 5)).
  reflexivity.
Defined.

(** ** Numbers: small quotients, clamping, channels *)

Lemma is_nan_eq x : is_nan x = true → x = nan.
Proof. intros H%is_nan_spec. apply Prim2SF_inj. by rewrite H. Qed.

Lemma ltb_nan_r x y : is_nan y = true → (x <? y)%float = false.
Proof.
  rewrite is_nan_spec, ltb_spec. intros ->. unfold SFltb, SFcompare.
  by destruct (Prim2SF x) as [[]|[]| |[] ? ?].
Qed.

Lemma leb_not_nan x y : (x <=? y)%float = true → is_nan x = false ∧ is_nan y = false.
Proof.
  rewrite leb_spec. intros H.
  split; apply not_true_is_false; intros Hn%is_nan_spec; rewrite Hn in H;
    unfold SFleb, SFcompare in H; [done|].
  by destruct (Prim2SF x) as [[]|[]| |[] ? ?].
Qed.

Lemma leb_refl x : is_nan x = false → (x <=? x)%float = true.
Proof. intros H. apply not_ltb_leb; [done | done | apply ltb_irrefl]. Qed.

Lemma ltb_leb x y : (x <? y)%float = true → (x <=? y)%float = true.
Proof.
  rewrite ltb_spec, leb_spec. unfold SFltb, SFleb. by destruct (SFcompare _ _) as [[]|].
Qed.

Lemma leb_not_ltb x y : (x <=? y)%float = true → (y <? x)%float = false.
Proof.
  intros H. destruct (y <? x)%float eqn:E; [|done]. apply ltb_not_leb in E. congruence.
Qed.

(** A float64 strictly between -1 and 1 converts to the integer 0. *)
Lemma int_of_float_below_one rt f :
  (-1 <? f)%float = true → (f <? 1)%float = true → int_of_float rt f = 0.
Proof.
  rewrite !ltb_spec.
  change (Prim2SF 1) with (S754_finite false 4503599627370496 (-52)).
  change (Prim2SF (-1)) with (S754_finite true 4503599627370496 (-52)).
  assert (Z.pos 4503599627370496 = 2 ^ 52) as HM by reflexivity.
  revert HM. generalize 4503599627370496%positive. intros M HM.
  unfold int_of_float, trunc_float. intros Hlo Hhi.
  destruct (Prim2SF f) as [s|s| |s m e] eqn:E; simpl; [done | by destruct s | done |].
  pose proof (mantissa_bound f s m e E) as Hm. clear E.
  assert (∃ p, e = Zneg p ∧ 52 ≤ Zpos p ∧ (Zpos p = 52 → Zpos m < Zpos M))
    as (p & -> & Hp & Hm52).
  { clear Hm HM. unfold SFltb, SFcompare in Hlo, Hhi. destruct s.
    - clear Hhi. destruct (Z.compare_spec (-52) e) as [He|?|?]; [|done|].
      + subst e. exists 52%positive. split_and!; [done | done |]. intros _.
        change (Pos.compare_cont Eq M m) with (Pos.compare M m) in Hlo.
        destruct (Pos.compare_spec M m) as [Hc|Hc|Hc];
          [discriminate Hlo | discriminate Hlo | by apply Pos2Z.pos_lt_pos in Hc].
      + clear Hlo. destruct e as [|p|p]; [lia | lia |]. exists p. split_and!; [done | lia | lia].
    - clear Hlo. destruct (Z.compare_spec e (-52)) as [He|?|?]; [| |done].
      + subst e. exists 52%positive. split_and!; [done | done |]. intros _.
        change (Pos.compare_cont Eq m M) with (Pos.compare m M) in Hhi.
        destruct (Pos.compare_spec m M) as [Hc|Hc|Hc];
          [discriminate Hhi | by apply Pos2Z.pos_lt_pos in Hc | discriminate Hhi].
      + clear Hhi. destruct e as [|p|p]; [lia | lia |]. exists p. split_and!; [done | lia | lia]. }
  clear Hlo Hhi.
  assert (Z.shiftr (Z.pos m) (Z.pos p) = 0) as ->.
  { rewrite Z.shiftr_div_pow2 by lia. apply Z.div_small. split; [lia|].
    destruct (Z.eq_dec (Z.pos p) 52) as [Heq|Hne].
    - rewrite Heq, <- HM. by apply Hm52.
    - apply Z.lt_le_trans with (2 ^ 53); [done|]. apply Z.pow_le_mono_r; lia. }
  by destruct s.
Qed.

(** X8. [timePerColor] is a whole number of seconds, rounded towards zero:
    when twenty seconds over the speed, shared among the colours, is
    less than one second, the loop waits 0 ns after each colour. *)
Theorem timePerColor_below_one_second (rt : Runtime) (scene : Scene) :
  let perColor :=
    (20 / Scene_Speed scene
     / float_of_int (Z.of_nat (length (Palette_Color (Scene_Palette scene)))))%float in
  (-1 <? perColor)%float = true →
  (perColor <? 1)%float = true →
  timePerColor rt scene = 0 ∧
  ∀ t paletteColor,
    Task_scene t = scene →
    palette_step rt t paletteColor
    = applyPaletteColor rt (Task_device t) scene paletteColor ++ [Sleep 0].
Proof.
  intros perColor Hlo Hhi.
  assert (timePerColor rt scene = 0) as H0.
  { unfold timePerColor. fold perColor. by rewrite (int_of_float_below_one rt perColor Hlo Hhi). }
  split; [done|]. intros t paletteColor <-. unfold palette_step. by rewrite H0.
Qed.

Lemma timePerColor_below_one_second_witness :
  length (Palette_Color (Scene_Palette many_colours)) = 21%nat ∧
  ∀ rt, timePerColor rt many_colours = 0.
Proof.
  split; [reflexivity|]. intros rt.
  apply (timePerColor_below_one_second rt many_colours); vm_compute; reflexivity.
Defined.

(** X9. [clamp] between bounds in order: a NaN passes through; any other
    number comes out between the bounds; a number between the bounds
    comes out as it is, so clamping twice is clamping once. *)
Theorem clamp_between (x minF maxF : float) :
  (minF <=? maxF)%float = true →
  (is_nan x = true → clamp x minF maxF = x) ∧
  (is_nan x = false →
   (minF <=? clamp x minF maxF)%float = true ∧ (clamp x minF maxF <=? maxF)%float = true) ∧
  ((minF <=? x)%float = true → (x <=? maxF)%float = true → clamp x minF maxF = x) ∧
  clamp (clamp x minF maxF) minF maxF = clamp x minF maxF.
Proof.
  intros Hb. destruct (leb_not_nan _ _ Hb) as [Hmin Hmax].
  assert (is_nan x = true → clamp x minF maxF = x) as Hnan.
  { intros Hx. unfold clamp. by rewrite (nan_ltb x minF Hx), (ltb_nan_r maxF x Hx). }
  assert (∀ y, (minF <=? y)%float = true → (y <=? maxF)%float = true → clamp y minF maxF = y)
    as Hin.
  { intros y H1 H2. unfold clamp. by rewrite (leb_not_ltb _ _ H1), (leb_not_ltb _ _ H2). }
  assert (is_nan x = false →
          (minF <=? clamp x minF maxF)%float = true ∧ (clamp x minF maxF <=? maxF)%float = true)
    as Hrange.
  { intros Hx. unfold clamp.
    destruct (x <? minF)%float eqn:Hlo; [split; [by apply leb_refl | done]|].
    destruct (maxF <? x)%float eqn:Hhi; [split; [done | by apply leb_refl]|].
    split; by apply not_ltb_leb. }
  split_and!; [done | done | apply Hin |].
  destruct (is_nan x) eqn:Hx.
  - by rewrite !Hnan.
  - destruct (Hrange eq_refl) as [H1 H2]. by apply Hin.
Qed.

Lemma clamp_between_witness :
  (0 <=? 255)%float = true ∧ clamp 300 0 255 = 255%float ∧
  (0 <=? clamp 300 0 255)%float = true.
Proof.
  split; [reflexivity|]. split; [reflexivity|].
  apply (clamp_between 300 0 255); reflexivity.
Defined.

Lemma gammaChannel_range rt v :
  0 ≤ gammaChannel rt v ≤ 255 ∨ gammaChannel rt v = int_of_float rt nan.
Proof.
  unfold gammaChannel. destruct (is_nan (toGamma rt v * 255)) eqn:Hn.
  - right. apply is_nan_eq in Hn. rewrite Hn.
    by replace (clamp nan 0 255) with nan by reflexivity.
  - left. by apply clamp_channel_range.
Qed.

(** X10. Every channel [coordsToRGB] returns is between 0 and 255, or it is
    the conversion of a NaN to [int], which Go leaves open. *)
Theorem coordsToRGB_channels (rt : Runtime) (x y : float) (bri : Z)
    (gamutType : GamutType) (gamut : Gamut) :
  let '(r, g, b) := coordsToRGB rt x y bri gamutType gamut in
  let byte_or_nan (channel : Z) :=
    0 ≤ channel ≤ 255 ∨ channel = int_of_float rt nan in
  byte_or_nan r ∧ byte_or_nan g ∧ byte_or_nan b.
Proof.
  unfold coordsToRGB, xyBriToRGB. destruct (linearRGB _ _) as [[rLin gLin] bLin].
  split_and!; apply gammaChannel_range.
Qed.

(** X21. At brightness 0 the conversion gives black, (0, 0, 0), whenever
    the corrected point has finite [x], [y] and [1 - x - y] and [y] is
    not zero: the quotient [0 / y] is a zero and so is every sum. (With
    [y = 0] it is a NaN, see C4.) *)
Theorem coordsToRGB_black_at_zero (rt : Runtime) (x y : float)
    (gamutType : GamutType) (gamut : Gamut) :
  let p := correctToGamut (mkCoords x y) (colorGamut gamutType gamut) in
  is_finite (Coords_X p) = true →
  is_finite (Coords_Y p) = true →
  (Coords_Y p =? 0)%float = false →
  is_finite (1 - Coords_X p - Coords_Y p)%float = true →
  coordsToRGB rt x y 0 gamutType gamut = (0, 0, 0).
Proof.
  intros p Hx Hy Hy0 Hz. unfold coordsToRGB, xyBriToRGB. fold p.
  pose proof (linearRGB_zero p Hx Hy Hy0 Hz) as H.
  destruct (linearRGB p 0) as [[rLin gLin] bLin]. destruct H as (Hr & Hg & Hb).
  by rewrite !gammaChannel_zero.
Qed.

Lemma coordsToRGB_black_at_zero_witness :
  correctToGamut (mkCoords 0.6915 0.3083) (colorGamut GamutTypeC Gamut_zero)
    = mkCoords 0.6915 0.3083 ∧
  is_finite 0.6915 = true ∧ is_finite 0.3083 = true ∧ (0.3083 =? 0)%float = false ∧
  is_finite (1 - 0.6915 - 0.3083)%float = true ∧
  ∀ rt, coordsToRGB rt 0.6915 0.3083 0 GamutTypeC Gamut_zero = (0, 0, 0).
Proof.
  split; [vm_compute; reflexivity|]. do 4 (split; [reflexivity|]). intros rt.
  apply (coordsToRGB_black_at_zero rt 0.6915 0.3083 GamutTypeC Gamut_zero);
    vm_compute; reflexivity.
Defined.

(** ** The Govee client *)

Lemma receive_lookup c packet deviceID :
  Govee.devices (Govee.receive c packet) !! deviceID =
  match Govee.devices c !! deviceID with
  | Some ip => Some ip
  | None => first_address deviceID [packet]
  end.
Proof.
  unfold first_address, Govee.receive. simpl.
  destruct packet as [msg|]; simpl; [|by destruct (_ !! _)].
  destruct (decide (Govee.DiscoveryMessage_Command msg = "scan")) as [Hs|Hs].
  - rewrite (bool_decide_eq_true_2 _ Hs). simpl.
    destruct (decide (Govee.DiscoveryData_DeviceID (Govee.DiscoveryMessage_Data msg) = deviceID))
      as [Hd|Hd].
    + rewrite (bool_decide_eq_true_2 _ Hd). subst deviceID.
      destruct (Govee.devices c !! _) eqn:E; simpl; [done|].
      by rewrite lookup_insert_eq.
    + rewrite (bool_decide_eq_false_2 _ Hd).
      destruct (Govee.devices c !! Govee.DiscoveryData_DeviceID _) eqn:E; simpl.
      * by destruct (_ !! deviceID).
      * rewrite lookup_insert_ne by done. by destruct (_ !! deviceID).
  - rewrite (bool_decide_eq_false_2 _ Hs). simpl. by destruct (_ !! deviceID).
Qed.

Lemma devices_after_reads (c : Govee.Client)
    (packets : list (option Govee.DiscoveryMessage)) (deviceID : string) :
  Govee.devices (fold_left Govee.receive packets c) !! deviceID =
  match Govee.devices c !! deviceID with
  | Some ip => Some ip
  | None => first_address deviceID packets
  end.
Proof.
  revert c. induction packets as [|packet packets IH]; intros c; simpl.
  - by destruct (_ !! _).
  - rewrite IH, receive_lookup.
    destruct (Govee.devices c !! deviceID) as [ip|]; [done|].
    unfold first_address. simpl.
    destruct (announces deviceID packet) eqn:E; [by destruct packet|].
    done.
Qed.

(** X11. The devices after some reads of the discovery socket: a device
    known before keeps its address, whatever is announced later; a
    device not known gets the address of its first announcement, and
    stays unknown when there is none. Nothing else of the client
    changes. *)
Theorem discovery_keeps_first_address (c : Govee.Client)
    (packets : list (option Govee.DiscoveryMessage)) (deviceID : string) :
  let c' := fold_left Govee.receive packets c in
  (∀ ip, Govee.devices c !! deviceID = Some ip → Govee.devices c' !! deviceID = Some ip) ∧
  (Govee.devices c !! deviceID = None →
   Govee.devices c' !! deviceID = first_address deviceID packets) ∧
  (first_address deviceID packets = None →
   Govee.devices c' !! deviceID = Govee.devices c !! deviceID) ∧
  Govee.multicastIP c' = Govee.multicastIP c.
Proof.
  intros c'. pose proof (devices_after_reads c packets deviceID) as H. fold c' in H.
  split_and!.
  - intros ip Hip. by rewrite H, Hip.
  - intros Hnone. by rewrite H, Hnone.
  - intros Hnone. rewrite H, Hnone. by destruct (Govee.devices c !! deviceID).
  - unfold c'. clear. revert c. induction packets as [|packet packets IH]; intros c; [done|].
    simpl. rewrite IH. unfold Govee.receive. destruct packet as [msg|]; [|done].
    destruct (decide _); [|done]. by destruct (_ !! _).
Qed.

(** X12. Each of the four commands, after the client was started and read
    some packets: to a device never announced nothing is sent and the
    error is the one [IsDeviceNotFound] recognises; to an announced
    device goes one datagram, to the control port of its first address,
    unless the network fails, and the error is never that one. *)
Theorem command_goes_to_first_address (multicastIP : string)
    (packets : list (option Govee.DiscoveryMessage)) (net : Govee.Net)
    (deviceID : string) (cmd : Command) :
  let c := fold_left Govee.receive packets (Govee.NewClient multicastIP) in
  issue c net deviceID cmd =
    match first_address deviceID packets, net with
    | None, _ => (Some Govee.ErrDeviceNotFound, [])
    | Some ip, Govee.Delivers => (None, [Govee.mkDatagram ip 4003 (message_of cmd)])
    | Some ip, Govee.DialFails => (Some (Govee.ErrConnect deviceID), [])
    | Some ip, Govee.WriteFails => (Some (Govee.ErrSend deviceID), [])
    end ∧
  (Govee.IsDeviceNotFound (issue c net deviceID cmd).1 = true
   ↔ first_address deviceID packets = None).
Proof.
  intros c.
  assert (Govee.devices c !! deviceID = first_address deviceID packets) as Hc.
  { unfold c. by rewrite devices_after_reads. }
  assert (∀ name data, Govee.sendCommand c net deviceID name data =
            match first_address deviceID packets, net with
            | None, _ => (Some Govee.ErrDeviceNotFound, [])
            | Some ip, Govee.Delivers =>
                (None, [Govee.mkDatagram ip 4003 (Govee.mkMessage name data)])
            | Some ip, Govee.DialFails => (Some (Govee.ErrConnect deviceID), [])
            | Some ip, Govee.WriteFails => (Some (Govee.ErrSend deviceID), [])
            end) as Hsend.
  { intros name data. unfold Govee.sendCommand. rewrite Hc.
    by destruct (first_address deviceID packets), net. }
  assert (issue c net deviceID cmd
          = Govee.sendCommand c net deviceID (Govee.Message_Command (message_of cmd))
                              (Govee.Message_Data (message_of cmd))) as -> by by destruct cmd.
  rewrite Hsend. split.
  - by destruct cmd.
  - destruct (first_address deviceID packets), net; simpl; split; done.
Qed.

(** ** The Hue client *)

Lemma find_first {A} (f : A → bool) (l : list A) :
  match find f l with
  | Some x => ∃ before after, l = before ++ x :: after ∧ f x = true ∧
                              Forall (λ y, f y = false) before
  | None => Forall (λ y, f y = false) l
  end.
Proof.
  induction l as [|a l IH]; simpl; [done|].
  destruct (f a) eqn:E.
  - by exists [], l.
  - destruct (find f l) as [x|].
    + destruct IH as (before & after & -> & Hx & Hb).
      exists (a :: before), after. split_and!; [done | done | by constructor].
    + by constructor.
Qed.

(** X13. [GetActiveScene] returns a scene or an error, never both and never
    neither. The scene is the first of the answer that belongs to the
    room, with status "dynamic_palette" and group type "room"; the
    error, for an answer that was read, says that it has no such
    scene. *)
Theorem GetActiveScene_first_match (reply : HueClient.Reply Scene) (roomId : string) :
  match HueClient.GetActiveScene reply roomId with
  | (Some scene, None) =>
      ∃ before after,
        reply = HueClient.Body (before ++ scene :: after) ∧
        Group_ID (Scene_Group scene) = roomId ∧
        SceneStatus_Active (Scene_Status scene) = "dynamic_palette" ∧
        Group_Type (Scene_Group scene) = "room" ∧
        Forall (λ s, HueClient.active_in_room roomId s = false) before
  | (None, Some err) =>
      ∀ Data, reply = HueClient.Body Data →
              err = HueClient.ErrNoActiveScene roomId ∧
              Forall (λ s, HueClient.active_in_room roomId s = false) Data
  | _ => False
  end.
Proof.
  destruct reply as [| | |Data]; simpl; try done.
  destruct Data as [|s Data]; [by intros ? [= <-]|].
  cbn [length Nat.eqb].
  pose proof (find_first (HueClient.active_in_room roomId) (s :: Data)) as H.
  destruct (find _ (s :: Data)) as [scene|].
  - destruct H as (before & after & -> & Hx & Hb). exists before, after.
    unfold HueClient.active_in_room in Hx.
    apply andb_prop in Hx as [[H1 H2]%andb_prop H3].
    apply bool_decide_eq_true_1 in H1, H2, H3. done.
  - by intros ? [= <-].
Qed.

(** ** Finding the Hue bridge *)

(** X20. What [discoverBridge] does with what its select receives, in
    order. It passes over the entries whose name, without backslashes
    and cut by seventeen bytes, does not fold to the service name. It
    returns the address of the first entry that does. It fails when the
    context is done, when the channel is closed, and at an entry whose
    name is empty once the backslashes are removed, whatever comes
    after. It panics on a bridge id of fewer than six bytes, and at an
    entry whose name without backslashes has between one and sixteen
    bytes. *)
Theorem discoverBridge_outcome (u : HueClient.Strings) (hueBridgeID : string)
    (selects : list HueClient.Select) :
  let name := HueClient.serviceName u hueBridgeID in
  let stops_at (P : HueClient.Select → Prop) :=
    ∃ before s after, selects = before ++ s :: after ∧
                      Forall (λ s', passed_over u name s' = true) before ∧ P s in
  match HueClient.discoverBridge u hueBridgeID selects with
  | Panics =>
      (String.length hueBridgeID < 6)%nat ∨
      stops_at (λ s, ∃ Name AddrV4, s = HueClient.Entry Name AddrV4 ∧
                  (0 < String.length (HueClient.without_backslashes Name) < 17)%nat)
  | Returns result =>
      (6 ≤ String.length hueBridgeID)%nat ∧
      match result with
      | HueClient.Bridge Address =>
          stops_at (λ s, ∃ Name, s = HueClient.Entry Name Address ∧
                      let entryName := HueClient.without_backslashes Name in
                      (17 ≤ String.length entryName)%nat ∧
                      HueClient.EqualFold u
                        (String.substring 0 (String.length entryName - 17) entryName) name
                      = true)
      | HueClient.Fails err =>
          stops_at (λ s,
                      (s = HueClient.CtxDone ∧ err = HueClient.ErrContext) ∨
                      (err = HueClient.ErrServiceNotFound name ∧
                       (s = HueClient.Closed ∨
                        ∃ Name AddrV4, s = HueClient.Entry Name AddrV4 ∧
                                       HueClient.without_backslashes Name = EmptyString)))
      | HueClient.Waits => Forall (λ s, passed_over u name s = true) selects
      end
  end.
Proof.
  intros name stops_at. unfold HueClient.discoverBridge. fold name.
  destruct (Nat.ltb_spec (String.length hueBridgeID) 6) as [Hshort|Hlong]; [by left|].
  assert (∀ l (P : HueClient.Select → Prop),
            (∃ before s after, l = before ++ s :: after ∧
               Forall (λ s', passed_over u name s' = true) before ∧ P s) →
            ∀ s0, passed_over u name s0 = true →
            ∃ before s after, s0 :: l = before ++ s :: after ∧
               Forall (λ s', passed_over u name s' = true) before ∧ P s) as Hcons.
  { intros l P (before & s & after & -> & Hb & HP) s0 Hs0.
    exists (s0 :: before), s, after. split_and!; [done | by constructor | done]. }
  assert (∀ l s (P : HueClient.Select → Prop), P s →
            ∃ before s' after, s :: l = before ++ s' :: after ∧
               Forall (λ s', passed_over u name s' = true) before ∧ P s') as Hhere.
  { intros l s P HP. exists [], s, l. split_and!; [done | constructor | done]. }
  subst stops_at. cbv beta.
  induction selects as [|s selects IH]; simpl; [split; [done | constructor]|].
  destruct s as [| |Name AddrV4].
  - split; [done|]. apply Hhere. by left.
  - split; [done|]. apply Hhere. right. split; [done|]. by left.
  - destruct (decide (HueClient.without_backslashes Name = EmptyString)) as [He|He].
    { split; [done|]. apply Hhere. right. split; [done|]. right. by exists Name, AddrV4. }
    unfold HueClient.suffix_length.
    destruct (Nat.ltb_spec (String.length (HueClient.without_backslashes Name)) 17)
      as [Hlt|Hge].
    { right. apply Hhere. exists Name, AddrV4. split; [done|]. split; [|done].
      destruct (HueClient.without_backslashes Name); [done | simpl; lia]. }
    destruct (HueClient.EqualFold u _ name) eqn:Hfold.
    { split; [done|]. apply Hhere. exists Name. split_and!; done. }
    assert (passed_over u name (HueClient.Entry Name AddrV4) = true) as Hover.
    { unfold passed_over. cbv zeta. unfold HueClient.suffix_length.
      by rewrite Hfold, (proj2 (Nat.leb_le _ _) Hge). }
    destruct (HueClient.await u name selects) as [[Address|err|]|].
    + destruct IH as [_ IH]. split; [done|]. by apply Hcons.
    + destruct IH as [_ IH]. split; [done|]. by apply Hcons.
    + destruct IH as [_ IH]. split; [done|]. by constructor.
    + destruct IH as [?|IH]; [lia|]. right. by apply Hcons.
Qed.

(** ** The configuration and the static path *)

Lemma out_of_range_false synchronizations :
  Config.out_of_range synchronizations = false ↔
  Forall (λ sync, ∀ fb, Config.FixedBrightness sync = Some fb → 0 ≤ fb ≤ 100)
         synchronizations.
Proof.
  induction synchronizations as [|sync rest IH]; simpl; [by split; [constructor|]|].
  rewrite Forall_cons, <- IH. clear IH.
  destruct (Config.FixedBrightness sync) as [fb|].
  - destruct (Z.ltb_spec 100 fb), (Z.ltb_spec fb 0); simpl.
    + split; [done|]. intros [Hr _]. specialize (Hr fb eq_refl). lia.
    + split; [done|]. intros [Hr _]. specialize (Hr fb eq_refl). lia.
    + split; [done|]. intros [Hr _]. specialize (Hr fb eq_refl). lia.
    + split; [|by intros [_ ?]]. intros Hr. split; [|done]. intros ? [= <-]. lia.
  - split; [|by intros [_ ?]]. intros Hr. by split.
Qed.

Lemma GetSynchronizations_valid_entries unmarshalled synchronizations :
  Config.GetSynchronizations unmarshalled = inl synchronizations →
  Forall (λ sync, ∀ fb, Config.FixedBrightness sync = Some fb → 0 ≤ fb ≤ 100)
         synchronizations.
Proof.
  unfold Config.GetSynchronizations. destruct unmarshalled as [l|]; [|done].
  destruct (Config.out_of_range l) eqn:E; [done|]. intros [= <-]. by apply out_of_range_false.
Qed.

(** X14. [GetSynchronizations] returns the decoded synchronizations as they
    are, exactly when every fixed brightness among them is between 0 and
    100; otherwise it returns an error and no synchronization. *)
Theorem GetSynchronizations_validates (unmarshalled : option (list Config.Synchronization)) :
  match Config.GetSynchronizations unmarshalled with
  | inl synchronizations =>
      unmarshalled = Some synchronizations ∧
      Forall (λ sync, ∀ fb, Config.FixedBrightness sync = Some fb → 0 ≤ fb ≤ 100)
             synchronizations
  | inr Config.ErrUnmarshal => unmarshalled = None
  | inr Config.ErrFixedBrightness =>
      ∃ synchronizations sync fb,
        unmarshalled = Some synchronizations ∧ sync ∈ synchronizations ∧
        Config.FixedBrightness sync = Some fb ∧ ¬ (0 ≤ fb ≤ 100)
  end.
Proof.
  destruct unmarshalled as [synchronizations|]; simpl; [|done].
  destruct (Config.out_of_range synchronizations) eqn:E.
  - exists synchronizations.
    assert (∃ sync fb, sync ∈ synchronizations ∧ Config.FixedBrightness sync = Some fb ∧
                       ¬ (0 ≤ fb ≤ 100)) as (sync & fb & ? & ? & ?); [|by exists sync, fb].
    clear -E. induction synchronizations as [|sync rest IH]; simpl in E; [done|].
    destruct (Config.FixedBrightness sync) as [fb|] eqn:Hfb.
    + destruct (Z.ltb_spec 100 fb), (Z.ltb_spec fb 0); simpl in E;
        try (exists sync, fb; split_and!; [by left | done | lia]).
      destruct (IH E) as (s & f & ? & ? & ?). exists s, f. split_and!; [by right | done | done].
    + destruct (IH E) as (s & f & ? & ? & ?). exists s, f. split_and!; [by right | done | done].
  - split; [done|]. by apply out_of_range_false.
Qed.

(** X17. The static path of a turn. For a light that is on and in no
    dynamic scene, a device the client knows, and a network that
    delivers: the scene of the device, if one plays, is stopped, and
    two datagrams go to the device, the colour [ColorToRGB] gives and
    then the brightness: the fixed brightness when one is configured,
    which a validated configuration keeps between 0 and 100, and the
    Hue brightness over 254 times 100, truncated, otherwise. *)
Theorem synchronize_static_light (rt : Runtime)
    (unmarshalled : option (list Config.Synchronization))
    (synchronizations : list Config.Synchronization) (sync : Config.Synchronization)
    (env : Main.Tick) (b : Main.Bridge) (light : Light) (rest : list Light)
    (r g b' : Z) (ip : string) :
  Config.GetSynchronizations unmarshalled = inl synchronizations →
  sync ∈ synchronizations →
  Main.Tick_light env = HueClient.Body (light :: rest) →
  On_On (Light_On light) = true →
  Dynamics_Status (Light_Dynamics light) ≠ DynamicsStatusActive →
  ColorToRGB rt light (Config.FixedBrightness sync) = Returns (r, g, b') →
  Govee.devices (Main.goveeClient b) !! Config.GoveeDeviceId sync = Some ip →
  Main.Tick_net env 0%nat = Govee.Delivers →
  Main.Tick_net env 1%nat = Govee.Delivers →
  let bri := match Config.FixedBrightness sync with
             | Some fb => fb
             | None => int_of_float rt
                         (Dimming_Brightness (Light_Dimming light) / 254 * 100)%float
             end in
  Main.synchronize rt sync env b
  = Returns (Main.mkBridge
               (StopScene (Config.GoveeDeviceId sync) (Main.controller b))
               (Main.goveeClient b)
               (Main.sent b ++
                [Govee.mkDatagram ip 4003 (message_of (DoSetColor r g b'));
                 Govee.mkDatagram ip 4003 (message_of (DoSetBrightness bri))])) ∧
  (∀ fb, Config.FixedBrightness sync = Some fb → bri = fb ∧ 0 ≤ fb ≤ 100).
Proof.
  intros Hconf Hin Hreply Hon Hdyn Hrgb Hdev Hnet0 Hnet1 bri. split.
  - unfold Main.synchronize. rewrite Hreply. simpl. rewrite Hon.
    destruct (decide _) as [|_]; [done|]. rewrite Hrgb.
    unfold Govee.SetColor, Govee.SetBrightness, Govee.sendCommand.
    rewrite Hdev, Hnet0, Hnet1. simpl. fold bri. do 2 f_equal.
    unfold IsActive, StopScene.
    by destruct (activeScenes (Main.controller b) !! Config.GoveeDeviceId sync).
  - intros fb Hfb. split; [by unfold bri; rewrite Hfb|].
    pose proof (GetSynchronizations_valid_entries unmarshalled synchronizations Hconf) as Hall.
    rewrite Forall_forall in Hall. by apply (Hall sync Hin).
Qed.

Lemma synchronize_static_light_witness :
  Config.GetSynchronizations (Some [dimmed_sync]) = inl [dimmed_sync] ∧
  ∀ rt,
    Main.synchronize rt dimmed_sync grey_turn lamp_known
    = Returns (Main.mkBridge
                 NewSceneController
                 (Main.goveeClient lamp_known)
                 [Govee.mkDatagram "10.0.0.7" 4003 (message_of (DoSetColor 102 102 102));
                  Govee.mkDatagram "10.0.0.7" 4003 (message_of (DoSetBrightness 40))]).
Proof.
  split; [reflexivity|]. intros rt.
  refine (proj1 (synchronize_static_light rt (Some [dimmed_sync]) [dimmed_sync] dimmed_sync
                   grey_turn lamp_known (grey_light 80) [] 102 102 102 "10.0.0.7"
                   eq_refl _ eq_refl eq_refl _ _ _ eq_refl eq_refl)).
  - constructor.
  - discriminate.
  - vm_compute. reflexivity.
  - vm_compute. reflexivity.
Defined.

(** ** The bridge *)

Lemma sendCommand_out c net deviceID name data :
  let out := (Govee.sendCommand c net deviceID name data).2 in
  (length out ≤ 1)%nat ∧
  Forall (λ dg, Govee.devices c !! deviceID = Some (Govee.Datagram_Host dg) ∧
                Govee.Datagram_Port dg = Govee.controlPort ∧
                Govee.Datagram_Payload dg = Govee.mkMessage name data) out.
Proof.
  unfold Govee.sendCommand. destruct (Govee.devices c !! deviceID) as [ip|]; simpl.
  - destruct net; simpl; split; auto.
  - auto.
Qed.

(** X15. One turn of a synchronization loop panics exactly when the Hue
    bridge reports a light that is on, not in a dynamic scene, with a
    mirek flagged valid and equal to zero. *)
Theorem synchronize_panics (rt : Runtime) (sync : Config.Synchronization) (env : Main.Tick)
    (b : Main.Bridge) :
  Main.synchronize rt sync env b = Panics ↔
  ∃ light rest,
    Main.Tick_light env = HueClient.Body (light :: rest) ∧
    On_On (Light_On light) = true ∧
    Dynamics_Status (Light_Dynamics light) ≠ DynamicsStatusActive ∧
    ColorTemperature_MirekValid (Light_ColorTemperature light) = true ∧
    ColorTemperature_Mirek (Light_ColorTemperature light) = 0.
Proof.
  unfold Main.synchronize.
  destruct (Main.Tick_light env) as [| | |[|light rest]]; simpl;
    try (split; [done | by intros (? & ? & ? & _)]).
  destruct (On_On (Light_On light)) eqn:Hon.
  - destruct (decide (Dynamics_Status (Light_Dynamics light) = DynamicsStatusActive)) as [Hd|Hd].
    + split.
      * destruct (IsActive _ _); [done|].
        by destruct (HueClient.GetActiveScene _ _) as [[scene|] [err|]].
      * by intros (? & ? & [= <- <-] & _ & ? & _).
    + unfold ColorToRGB. rewrite Hon. simpl.
      destruct (ColorTemperature_MirekValid (Light_ColorTemperature light)) eqn:Hv.
      * unfold int_div.
        destruct (Z.eqb_spec (ColorTemperature_Mirek (Light_ColorTemperature light)) 0)
          as [Hm|Hm].
        -- split; [|done]. intros _. by exists light, rest.
        -- split.
           ++ destruct (ctToRGB _ _ _) as [[r g] b'].
              destruct (Govee.SetColor _ _ _ _ _ _) as [err out1].
              destruct (Govee.IsDeviceNotFound err); [done|].
              by destruct (Govee.SetBrightness _ _ _ _).
           ++ by intros (? & ? & [= <- <-] & _ & _ & _ & ?).
      * split; [|by intros (? & ? & [= <- <-] & _ & _ & ? & _); congruence].
        destruct (_ || _).
        -- destruct (coordsToRGB _ _ _ _ _ _) as [[r g] b'].
           destruct (Govee.SetColor _ _ _ _ _ _) as [err out1].
           destruct (Govee.IsDeviceNotFound err); [done|].
           by destruct (Govee.SetBrightness _ _ _ _).
        -- destruct (Govee.SetColor _ _ _ _ _ _) as [err out1].
           destruct (Govee.IsDeviceNotFound err); [done|].
           by destruct (Govee.SetBrightness _ _ _ _).
  - split; [by destruct (Govee.TurnOff _ _ _) | by intros (? & ? & [= <- <-] & ? & _); congruence].
Qed.

(** What a turn that returns has done. *)
Lemma synchronize_returns rt sync env b b' :
  Main.synchronize rt sync env b = Returns b' →
  Main.goveeClient b' = Main.goveeClient b ∧
  (∃ out, Main.sent b' = Main.sent b ++ out ∧ (length out ≤ 2)%nat ∧
          Forall (own_datagram (Main.goveeClient b) (Config.GoveeDeviceId sync)) out) ∧
  ((Main.controller b' = Main.controller b) ∨
   (∃ light rest scene,
      Main.Tick_light env = HueClient.Body (light :: rest) ∧
      On_On (Light_On light) = true ∧
      Dynamics_Status (Light_Dynamics light) = DynamicsStatusActive ∧
      IsActive (Config.GoveeDeviceId sync) (Main.controller b) = false ∧
      HueClient.GetActiveScene (Main.Tick_scenes env) (Config.HueRoomId sync)
      = (Some scene, None) ∧
      Main.controller b' = SetScene (Config.GoveeDeviceId sync) scene (Main.controller b)) ∨
   (∃ light rest,
      Main.Tick_light env = HueClient.Body (light :: rest) ∧
      On_On (Light_On light) = true ∧
      Dynamics_Status (Light_Dynamics light) ≠ DynamicsStatusActive ∧
      IsActive (Config.GoveeDeviceId sync) (Main.controller b) = true ∧
      Main.controller b' = StopScene (Config.GoveeDeviceId sync) (Main.controller b))).
Proof.
  assert (∃ out, Main.sent b = Main.sent b ++ out ∧ (length out ≤ 2)%nat ∧
                 Forall (own_datagram (Main.goveeClient b) (Config.GoveeDeviceId sync)) out)
    as Hnil by (exists []; rewrite app_nil_r; split_and!; [done | simpl; lia | constructor]).
  assert (∀ net name data,
            bridge_payload (Govee.mkMessage name data) →
            let out := (Govee.sendCommand (Main.goveeClient b) net (Config.GoveeDeviceId sync)
                          name data).2 in
            (length out ≤ 1)%nat ∧
            Forall (own_datagram (Main.goveeClient b) (Config.GoveeDeviceId sync)) out) as Hsend.
  { intros net name data Hp out.
    destruct (sendCommand_out (Main.goveeClient b) net (Config.GoveeDeviceId sync) name data)
      as [Hlen Hall].
    split; [done|]. eapply Forall_impl; [exact Hall|].
    intros dg (? & ? & Hpay). unfold own_datagram. by rewrite Hpay. }
  assert (∀ r g b0, bridge_payload (Govee.mkMessage "colorwc"
                      (Govee.ColorData (Govee.mkRGBColor r g b0) 0))) as Hcol
    by (intros; right; left; eauto).
  assert (∀ v, bridge_payload (Govee.mkMessage "brightness" (Govee.BrightnessData v))) as Hbri
    by (intros; right; right; eauto).
  assert (bridge_payload (Govee.mkMessage "turn" (Govee.TurnData 0))) as Hoff by by left.
  assert (∀ sc rgb bri b1,
    (let '(r, g, b0) := rgb in
     let '(err, out1) := Govee.SetColor (Main.goveeClient b) (Main.Tick_net env 0%nat)
                           (Config.GoveeDeviceId sync) r g b0 in
     if Govee.IsDeviceNotFound err
     then Returns (Main.mkBridge sc (Main.goveeClient b) (Main.sent b ++ out1))
     else let '(_, out2) := Govee.SetBrightness (Main.goveeClient b) (Main.Tick_net env 1%nat)
                              (Config.GoveeDeviceId sync) bri in
          Returns (Main.mkBridge sc (Main.goveeClient b) (Main.sent b ++ out1 ++ out2)))
    = Returns b1 →
    Main.goveeClient b1 = Main.goveeClient b ∧ Main.controller b1 = sc ∧
    ∃ out, Main.sent b1 = Main.sent b ++ out ∧ (length out ≤ 2)%nat ∧
           Forall (own_datagram (Main.goveeClient b) (Config.GoveeDeviceId sync)) out) as Hstatic.
  { intros sc [[r g] b0] bri b1. unfold Govee.SetColor, Govee.SetBrightness.
    destruct (Hsend (Main.Tick_net env 0%nat) _ _ (Hcol r g b0)) as [Hl1 Ha1].
    destruct (Hsend (Main.Tick_net env 1%nat) _ _ (Hbri bri)) as [Hl2 Ha2].
    destruct (Govee.sendCommand _ _ _ "colorwc" _) as [err out1].
    destruct (Govee.sendCommand _ _ _ "brightness" _) as [err2 out2]. simpl in *.
    destruct (Govee.IsDeviceNotFound err); intros [= <-]; simpl.
    - split_and!; [done | done |]. exists out1. split_and!; [done | lia | done].
    - split_and!; [done | done |]. exists (out1 ++ out2).
      split_and!; [done | rewrite length_app; lia | by apply Forall_app]. }
  unfold Main.synchronize.
  destruct (Main.Tick_light env) as [| | |[|light rest]] eqn:Hreply; simpl;
    try (intros [= <-]; split_and!; [done | exact Hnil | by left]).
  destruct (On_On (Light_On light)) eqn:Hon.
  - destruct (decide (Dynamics_Status (Light_Dynamics light) = DynamicsStatusActive)) as [Hd|Hd].
    + destruct (IsActive _ _) eqn:Hact;
        [intros [= <-]; split_and!; [done | exact Hnil | by left]|].
      destruct (HueClient.GetActiveScene _ _) as [[scene|] [err|]] eqn:Hscene;
        intros [= <-]; (split_and!; [done | exact Hnil |]); try by left.
      right; left. by exists light, rest, scene.
    + destruct (ColorToRGB rt light (Config.FixedBrightness sync)) as [rgb|]; [|done].
      intros Hret. apply Hstatic in Hret as (Hc & Hsc & Hout). split_and!; [done | done |].
      rewrite Hsc. destruct (IsActive _ _) eqn:Hact; [|by left].
      right; right. by exists light, rest.
  - destruct (Hsend (Main.Tick_net env 0%nat) _ _ Hoff) as [Hl Ha].
    unfold Govee.TurnOff. destruct (Govee.sendCommand _ _ _ _ _) as [err out]. simpl in *.
    intros [= <-]. split_and!; [done | | by left]. exists out. split_and!; [done | lia | done].
Qed.

(** X16. What a turn that returns has done, taken as a whole. The
    client is not changed, and at most two datagrams go out, to the
    address of the own device. Of the controller only the own device
    can change, in one of two ways: a scene is set, for a light that is
    on with status "dynamic_palette" and a device that was not active,
    and it is the scene [GetActiveScene] returns; or the scene of the
    device is stopped, for a light that is on with another status and
    a device that was active. So a light that is off or cannot be read
    leaves a playing scene playing, and a light in a dynamic scene
    whose device is active leaves everything as it is. *)
Theorem synchronize_scene_changes (rt : Runtime) (sync : Config.Synchronization)
    (env : Main.Tick) (b b' : Main.Bridge) :
  Main.synchronize rt sync env b = Returns b' →
  let d := Config.GoveeDeviceId sync in
  Main.goveeClient b' = Main.goveeClient b ∧
  (∃ out, Main.sent b' = Main.sent b ++ out ∧ (length out ≤ 2)%nat ∧
          Forall (own_datagram (Main.goveeClient b) d) out) ∧
  (∀ d', d' ≠ d →
         activeScenes (Main.controller b') !! d' = activeScenes (Main.controller b) !! d') ∧
  ((Main.controller b' = Main.controller b) ∨
   (∃ light rest scene,
      Main.Tick_light env = HueClient.Body (light :: rest) ∧
      On_On (Light_On light) = true ∧
      Dynamics_Status (Light_Dynamics light) = DynamicsStatusActive ∧
      IsActive d (Main.controller b) = false ∧
      HueClient.GetActiveScene (Main.Tick_scenes env) (Config.HueRoomId sync)
      = (Some scene, None) ∧
      Main.controller b' = SetScene d scene (Main.controller b)) ∨
   (∃ light rest,
      Main.Tick_light env = HueClient.Body (light :: rest) ∧
      On_On (Light_On light) = true ∧
      Dynamics_Status (Light_Dynamics light) ≠ DynamicsStatusActive ∧
      IsActive d (Main.controller b) = true ∧
      Main.controller b' = StopScene d (Main.controller b))) ∧
  (∀ light rest,
     Main.Tick_light env = HueClient.Body (light :: rest) →
     On_On (Light_On light) = true →
     Dynamics_Status (Light_Dynamics light) = DynamicsStatusActive →
     IsActive d (Main.controller b) = true →
     b' = b).
Proof.
  intros Hret d.
  destruct (synchronize_returns rt sync env b b' Hret) as (Hc & Hout & Hctl).
  fold d in Hout, Hctl. split; [done|]. split; [done|]. split; [|split; [done|]].
  - destruct Hctl as [Heq | [(light & rest & scene & _ & _ & _ & _ & _ & Heq)
                            | (light & rest & _ & _ & _ & _ & Heq)]];
      rewrite Heq; intros d' Hd'; [done | | by rewrite StopScene_other].
    unfold SetScene; simpl. by rewrite lookup_insert_ne, StopScene_other.
  - intros light rest Hl Hon Hdyn Hact. unfold Main.synchronize in Hret.
    rewrite Hl in Hret. simpl in Hret. rewrite Hon in Hret.
    destruct (decide _) as [_|?]; [|done]. fold d in Hret. rewrite Hact in Hret.
    by injection Hret as <-.
Qed.

Lemma synchronize_scene_changes_witness :
  HueClient.GetActiveScene (Main.Tick_scenes scene_turn) "room-1" = (Some three_colours, None) ∧
  ∀ rt : Runtime,
    (∃ out, @nil Govee.Datagram = [] ++ out ∧ (length out ≤ 2)%nat ∧
            Forall (own_datagram (Main.goveeClient lamp_known) "lamp") out) ∧
    ((SetScene "lamp" three_colours NewSceneController = NewSceneController) ∨
     (∃ light rest scene,
        Main.Tick_light scene_turn = HueClient.Body (light :: rest) ∧
        On_On (Light_On light) = true ∧
        Dynamics_Status (Light_Dynamics light) = DynamicsStatusActive ∧
        IsActive "lamp" NewSceneController = false ∧
        HueClient.GetActiveScene (Main.Tick_scenes scene_turn) "room-1" = (Some scene, None) ∧
        SetScene "lamp" three_colours NewSceneController
        = SetScene "lamp" scene NewSceneController) ∨
     (∃ light rest,
        Main.Tick_light scene_turn = HueClient.Body (light :: rest) ∧
        On_On (Light_On light) = true ∧
        Dynamics_Status (Light_Dynamics light) ≠ DynamicsStatusActive ∧
        IsActive "lamp" NewSceneController = true ∧
        SetScene "lamp" three_colours NewSceneController
        = StopScene "lamp" NewSceneController)).
Proof.
  split; [reflexivity|]. intros rt.
  pose proof (synchronize_scene_changes rt lamp_sync scene_turn lamp_known
                (Main.mkBridge (SetScene "lamp" three_colours NewSceneController)
                               (Main.goveeClient lamp_known) [])
                eq_refl) as (_ & Hout & _ & Hctl & _).
  exact (conj Hout Hctl).
Defined.

(** ** The goroutines of the bridge *)

(** A turn nothing comes in between is [synchronize]. *)
Lemma turn_is_synchronize rt sync env b :
  Main.turn rt sync env 4 Main.AtTimer b =
  match Main.synchronize rt sync env b with
  | Returns b' => Returns (Main.AtTimer, b')
  | Panics => Panics
  end.
Proof.
  unfold Main.synchronize. cbn [Main.turn Main.sync_step].
  destruct (HueClient.GetLight _ _) as [[light|] [err|]]; try done.
  destruct (On_On (Light_On light)); [|by destruct (Govee.TurnOff _ _ _)].
  destruct (decide _) as [Hd|Hd].
  - destruct (IsActive _ _); [done|]. cbn [Main.sync_step].
    by destruct (HueClient.GetActiveScene _ _) as [[scene|] [err|]].
  - destruct b as [w c snt].
    destruct (IsActive _ _);
      cbn [Main.sync_step Main.turn Main.goveeClient Main.sent Main.controller];
      (destruct (ColorToRGB _ _ _) as [[[r g] b']|]; [|done]); cbv zeta;
      destruct (Govee.SetColor _ _ _ _ _ _) as [err out1];
      (destruct (Govee.IsDeviceNotFound err); [done|]);
      cbn [Main.turn Main.sync_step Main.goveeClient Main.sent Main.controller];
      destruct (Govee.SetBrightness _ _ _ _) as [err2 out2]; by rewrite app_assoc.
Qed.

(** What a step of a synchronization goroutine does to the bridge. *)
Lemma sync_step_returns rt sync env pos b pos' b' :
  Main.sync_step rt sync env pos b = Returns (pos', b') →
  Main.goveeClient b' = Main.goveeClient b ∧
  (∃ out, Main.sent b' = Main.sent b ++ out ∧
          Forall (own_datagram (Main.goveeClient b) (Config.GoveeDeviceId sync)) out) ∧
  ((Main.controller b' = Main.controller b ∧ ∀ scene, pos' ≠ Main.InSetScene scene) ∨
   (Main.controller b' = StopScene (Config.GoveeDeviceId sync) (Main.controller b)) ∨
   (∃ scene, pos = Main.InSetScene scene ∧ pos' = Main.AtTimer ∧
             Main.controller b'
             = Main.register (Config.GoveeDeviceId sync) scene (Main.controller b))).
Proof.
  assert (∃ out, Main.sent b = Main.sent b ++ out ∧
                 Forall (own_datagram (Main.goveeClient b) (Config.GoveeDeviceId sync)) out)
    as Hnil by (exists []; rewrite app_nil_r; split; [done | constructor]).
  assert (∀ net name data,
            bridge_payload (Govee.mkMessage name data) →
            Forall (own_datagram (Main.goveeClient b) (Config.GoveeDeviceId sync))
                   (Govee.sendCommand (Main.goveeClient b) net (Config.GoveeDeviceId sync)
                      name data).2) as Hsend.
  { intros net name data Hp.
    destruct (sendCommand_out (Main.goveeClient b) net (Config.GoveeDeviceId sync) name data)
      as [_ Hall].
    eapply Forall_impl; [exact Hall|].
    intros dg (? & ? & Hpay). unfold own_datagram. by rewrite Hpay. }
  assert (∀ r g b0, bridge_payload (Govee.mkMessage "colorwc"
                      (Govee.ColorData (Govee.mkRGBColor r g b0) 0))) as Hcol
    by (intros; right; left; eauto).
  assert (∀ v, bridge_payload (Govee.mkMessage "brightness" (Govee.BrightnessData v))) as Hbri
    by (intros; right; right; eauto).
  assert (bridge_payload (Govee.mkMessage "turn" (Govee.TurnData 0))) as Hoff by by left.
  destruct pos as [| |scene|light|light|bri]; simpl.
  - destruct (HueClient.GetLight _ _) as [[light|] [err|]]; try done;
      try (intros [= <- <-]; split_and!; [done | done | by left]).
    destruct (On_On (Light_On light)).
    + destruct (decide _); destruct (IsActive _ _);
        intros [= <- <-]; split_and!; try done; by left.
    + pose proof (Hsend (Main.Tick_net env 0%nat) _ _ Hoff) as Ha.
      unfold Govee.TurnOff. destruct (Govee.sendCommand _ _ _ _ _) as [err out].
      intros [= <- <-]. split_and!; [done | by exists out | by left].
  - destruct (HueClient.GetActiveScene _ _) as [[scene|] [err|]];
      intros [= <- <-]; split_and!; try done; try (by left). right. by left.
  - intros [= <- <-]. split_and!; [done | done |]. right. right. by exists scene.
  - intros [= <- <-]. split_and!; [done | done |]. right. by left.
  - destruct (ColorToRGB _ _ _) as [[[r g] b0]|]; [|done].
    pose proof (Hsend (Main.Tick_net env 0%nat) _ _ (Hcol r g b0)) as Ha.
    unfold Govee.SetColor. destruct (Govee.sendCommand _ _ _ _ _) as [err out1].
    destruct (Govee.IsDeviceNotFound err); intros [= <- <-];
      (split_and!; [done | by exists out1 | by left]).
  - pose proof (Hsend (Main.Tick_net env 1%nat) _ _ (Hbri bri)) as Ha.
    unfold Govee.SetBrightness. destruct (Govee.sendCommand _ _ _ _ _) as [err out2].
    intros [= <- <-]. split_and!; [done | by exists out2 | by left].
Qed.

Lemma receive_multicastIP c packet :
  Govee.multicastIP (Govee.receive c packet) = Govee.multicastIP c.
Proof.
  unfold Govee.receive. destruct packet as [msg|]; [|done].
  destruct (decide _); [|done]. by destruct (_ !! _).
Qed.

Lemma bridge_datagram_receive c packet dg :
  bridge_datagram c dg → bridge_datagram (Govee.receive c packet) dg.
Proof.
  intros [-> | (Hport & (deviceID & Hdev) & Hpay)].
  - left. by rewrite receive_multicastIP.
  - right. split_and!; [done | | done]. exists deviceID. by rewrite receive_lookup, Hdev.
Qed.

Lemma own_datagram_bridge c deviceID dg : own_datagram c deviceID dg → bridge_datagram c dg.
Proof.
  intros (Hdev & Hport & Hpay). right. split_and!; [done | by exists deviceID | done].
Qed.

Lemma hand_over_bridge c net effects :
  Forall (bridge_datagram c) (flat_map (Main.hand_over c net) effects).
Proof.
  induction effects as [|e effects IH]; simpl; [constructor|].
  apply Forall_app. split; [|apply IH].
  destruct e as [deviceID r g b|deviceID value|z]; simpl; [| |constructor].
  - unfold Govee.SetColor.
    destruct (sendCommand_out c net deviceID "colorwc"
                (Govee.ColorData (Govee.mkRGBColor r g b) 0)) as [_ Hall].
    eapply Forall_impl; [exact Hall|]. intros dg (Hdev & Hport & Hpay). right.
    split_and!; [done | by exists deviceID |]. rewrite Hpay. right; left; eauto.
  - unfold Govee.SetBrightness.
    destruct (sendCommand_out c net deviceID "brightness" (Govee.BrightnessData value))
      as [_ Hall].
    eapply Forall_impl; [exact Hall|]. intros dg (Hdev & Hport & Hpay). right.
    split_and!; [done | by exists deviceID |]. rewrite Hpay. right; right; eauto.
Qed.

(** Every happening keeps the datagrams those of the bridge, and moves
    the client by what the socket read. *)
Lemma happen_sent rt p h p' :
  Main.happen rt p h = Returns p' →
  Forall (bridge_datagram (Main.goveeClient (Main.bridge p))) (Main.sent (Main.bridge p)) →
  Forall (bridge_datagram (Main.goveeClient (Main.bridge p'))) (Main.sent (Main.bridge p')) ∧
  Main.goveeClient (Main.bridge p')
  = fold_left Govee.receive (packets_of [h]) (Main.goveeClient (Main.bridge p)).
Proof.
  intros Hh Hsent. destruct h as [i env|packet|c ch net|fate]; simpl in Hh.
  - destruct (Main.synchronizations p !! i) as [[sync pos]|]; [|by injection Hh as <-].
    destruct (Main.sync_step rt sync env pos (Main.bridge p)) as [[pos' b']|] eqn:Hstep;
      [|done].
    injection Hh as <-. simpl.
    destruct (sync_step_returns _ _ _ _ _ _ _ Hstep) as (Hc & (out & Hout & Hown) & _).
    split; [|done]. rewrite Hc, Hout. apply Forall_app. split; [done|].
    eapply Forall_impl; [exact Hown|]. intros dg. apply own_datagram_bridge.
  - injection Hh as <-. split; [|done]. simpl.
    eapply Forall_impl; [exact Hsent|]. intros dg. apply bridge_datagram_receive.
  - destruct (tasks (Main.controller (Main.bridge p)) !! c) as [t|];
      injection Hh as <-; (split; [|done]); [|done]. simpl.
    apply Forall_app. split; [done|]. apply hand_over_bridge.
  - destruct (Main.scanning p); [|by injection Hh as <-].
    destruct fate; injection Hh as <-; (split; [|done]); simpl;
      rewrite ?app_nil_r; try done.
    apply Forall_app. split; [done|]. repeat constructor.
Qed.

Lemma bridge_run_sent rt hs p p' :
  Main.bridge_run rt hs p = Returns p' →
  Forall (bridge_datagram (Main.goveeClient (Main.bridge p))) (Main.sent (Main.bridge p)) →
  Forall (bridge_datagram (Main.goveeClient (Main.bridge p'))) (Main.sent (Main.bridge p')) ∧
  Main.goveeClient (Main.bridge p')
  = fold_left Govee.receive (packets_of hs) (Main.goveeClient (Main.bridge p)).
Proof.
  revert p. induction hs as [|h hs IH]; intros p Hrun Hinv; simpl in Hrun.
  - by injection Hrun as <-.
  - destruct (Main.happen rt p h) as [p1|] eqn:Hh; [|done].
    destruct (happen_sent rt p h p1 Hh Hinv) as [Hinv1 Hc1].
    destruct (IH p1 Hrun Hinv1) as [Hinv' Hc']. split; [done|].
    rewrite Hc', Hc1. change (h :: hs) with ([h] ++ hs).
    unfold packets_of. by rewrite omap_app, fold_left_app.
Qed.

Lemma multicastIP_after_reads c packets :
  Govee.multicastIP (fold_left Govee.receive packets c) = Govee.multicastIP c.
Proof.
  revert c. induction packets as [|packet packets IH]; intros c; [done|].
  simpl. by rewrite IH, receive_multicastIP.
Qed.

(** X18. Whatever happens to the bridge after its start, in whatever
    order its goroutines take their steps: every datagram it has sent
    is the discovery request ("scan", topic "reserve") to port 4001 of
    the multicast address, or a command to port 4003 of the first
    address some device announced, which switches the device off, sets
    a colour without colour temperature, or sets a brightness. It never
    switches a device on. *)
Theorem bridge_sends_four_messages (rt : Runtime) (hs : list Main.Happening)
    (multicastIP : string) (syncs : list Config.Synchronization) (p : Main.Program) :
  Main.bridge_run rt hs (Main.started multicastIP syncs) = Returns p →
  Forall (λ dg,
            dg = scan_request multicastIP ∨
            (Govee.Datagram_Port dg = 4003 ∧
             (∃ deviceID,
                first_address deviceID (packets_of hs) = Some (Govee.Datagram_Host dg)) ∧
             bridge_payload (Govee.Datagram_Payload dg) ∧
             Govee.Datagram_Payload dg ≠ message_of DoTurnOn))
         (Main.sent (Main.bridge p)).
Proof.
  intros Hrun.
  destruct (bridge_run_sent rt hs _ p Hrun) as [Hsent Hc]; [constructor|].
  simpl in Hc. eapply Forall_impl; [exact Hsent|].
  intros dg [-> | (Hport & (deviceID & Hdev) & Hpay)].
  - left. by rewrite Hc, multicastIP_after_reads.
  - right. split_and!; [done | | done |].
    + exists deviceID. by rewrite Hc, devices_after_reads in Hdev.
    + destruct Hpay as [-> | [(r & g & b0 & ->) | (v & ->)]]; discriminate.
Qed.

Lemma bridge_sends_four_messages_witness :
  first_address "lamp" [lamp_announced; lamp_moved] = Some "10.0.0.7" ∧
  ∀ rt : Runtime,
    Forall (λ dg,
              dg = scan_request "239.255.255.250" ∨
              (Govee.Datagram_Port dg = 4003 ∧
               (∃ deviceID,
                  first_address deviceID
                    (packets_of [Main.SocketReads lamp_announced; Main.SocketReads lamp_moved;
                                 Main.ScanRuns Govee.ScanDelivers; Main.SyncRuns 0 quiet_turn])
                  = Some (Govee.Datagram_Host dg)) ∧
               bridge_payload (Govee.Datagram_Payload dg) ∧
               Govee.Datagram_Payload dg ≠ message_of DoTurnOn))
           [scan_request "239.255.255.250";
            Govee.mkDatagram "10.0.0.7" 4003 (message_of DoTurnOff)].
Proof.
  split; [reflexivity|]. intros rt.
  apply (bridge_sends_four_messages rt
           [Main.SocketReads lamp_announced; Main.SocketReads lamp_moved;
            Main.ScanRuns Govee.ScanDelivers; Main.SyncRuns 0 quiet_turn]
           "239.255.255.250" [lamp_sync]
           (Main.mkProgram
              (Main.mkBridge NewSceneController
                 (Govee.mkClient "239.255.255.250" (<["lamp" := "10.0.0.7"]> ∅))
                 [scan_request "239.255.255.250";
                  Govee.mkDatagram "10.0.0.7" 4003 (message_of DoTurnOff)])
              [(lamp_sync, Main.AtTimer)] true)).
  vm_compute. reflexivity.
Defined.

(** ** One loop for a device *)

Lemma SetScene_register d s w :
  SetScene d s w = Main.register d s (StopScene d w).
Proof. done. Qed.

Lemma Inv_register d s w :
  registered_iff_playing w → activeScenes w !! d = None →
  registered_iff_playing (Main.register d s w).
Proof.
  intros Hinv Hd.
  assert (StopScene d w = w) as Hstop by (unfold StopScene; by rewrite Hd).
  rewrite <- Hstop at 1. rewrite <- SetScene_register. by apply Inv_SetScene.
Qed.

Lemma StopScene_keeps_none d d' w :
  activeScenes w !! d' = None → activeScenes (StopScene d w) !! d' = None.
Proof.
  intros Hn. destruct (decide (d = d')) as [->|Hne]; [apply StopScene_unregisters|].
  by rewrite StopScene_other.
Qed.

Lemma synced_devices_insert p i sync pos pos' b :
  Main.synchronizations p !! i = Some (sync, pos) →
  synced_devices (Main.mkProgram b (<[i := (sync, pos')]> (Main.synchronizations p))
                                 (Main.scanning p))
  = synced_devices p.
Proof.
  intros Hi. unfold synced_devices; simpl. rewrite list_fmap_insert. simpl.
  apply list_insert_id. by rewrite list_lookup_fmap, Hi.
Qed.

(** With one synchronization for a device, every happening keeps the
    registrations the playing loops, and the devices of the goroutines
    that stand in [SetScene] unregistered. *)
Lemma happen_controller rt p h p' :
  Main.happen rt p h = Returns p' →
  NoDup (synced_devices p) →
  registered_iff_playing (Main.controller (Main.bridge p)) →
  between_sections p →
  NoDup (synced_devices p') ∧
  registered_iff_playing (Main.controller (Main.bridge p')) ∧
  between_sections p'.
Proof.
  intros Hh Hnd Hreg Hbetween. destruct h as [i env|packet|c ch net|fate]; simpl in Hh.
  - destruct (Main.synchronizations p !! i) as [[sync pos]|] eqn:Hi; [|by injection Hh as <-].
    destruct (Main.sync_step rt sync env pos (Main.bridge p)) as [[pos' b']|] eqn:Hstep;
      [|done].
    injection Hh as <-.
    destruct (sync_step_returns _ _ _ _ _ _ _ Hstep) as (_ & _ & Hctl).
    split; [by rewrite (synced_devices_insert p i sync pos)|].
    assert (∀ j sync' scene,
              <[i := (sync, pos')]> (Main.synchronizations p) !! j
              = Some (sync', Main.InSetScene scene) →
              (j = i ∧ sync' = sync ∧ pos' = Main.InSetScene scene) ∨
              (j ≠ i ∧ Main.synchronizations p !! j = Some (sync', Main.InSetScene scene)))
      as Hcases.
    { intros j sync' scene Hj. destruct (decide (j = i)) as [->|Hne].
      - rewrite list_lookup_insert_eq in Hj by (by eapply lookup_lt_Some).
        left. by injection Hj as <- <-.
      - rewrite list_lookup_insert_ne in Hj by done. by right. }
    unfold between_sections. cbn [Main.bridge Main.synchronizations].
    destruct Hctl as [[Hw Hpos] | [Hw | (scene & -> & -> & Hw)]].
    + split; [by rewrite Hw|]. intros j sync' scene Hj. simpl in *.
      destruct (Hcases j sync' scene Hj) as [(_ & _ & Hp) | [_ Hj']]; [by destruct (Hpos scene)|].
      rewrite Hw. by eapply Hbetween.
    + split; [rewrite Hw; by apply Inv_StopScene|]. intros j sync' scene Hj. simpl in *.
      rewrite Hw.
      destruct (Hcases j sync' scene Hj) as [(_ & -> & _) | [_ Hj']];
        [apply StopScene_unregisters|].
      apply StopScene_keeps_none. by eapply Hbetween.
    + assert (activeScenes (Main.controller (Main.bridge p)) !! Config.GoveeDeviceId sync = None)
        as Hnone by by eapply Hbetween.
      split; [rewrite Hw; by apply Inv_register|]. intros j sync' scene' Hj. simpl in *.
      destruct (Hcases j sync' scene' Hj) as [(_ & _ & [=]) | [Hne Hj']].
      rewrite Hw. unfold Main.register; simpl.
      rewrite lookup_insert_ne; [by eapply Hbetween|].
      intros Heq. apply Hne.
      eapply (NoDup_lookup (synced_devices p) j i (Config.GoveeDeviceId sync)); [done | |];
        unfold synced_devices; rewrite list_lookup_fmap; [by rewrite Hj', Heq | by rewrite Hi].
  - by injection Hh as <-.
  - destruct (tasks (Main.controller (Main.bridge p)) !! c) as [t|];
      injection Hh as <-; [|done].
    split; [done|]. split.
    + apply (Inv_exec rt (Main.controller (Main.bridge p)) (LoopRuns c ch)), Hreg.
    + intros j sync' scene Hj. simpl in *. rewrite run_task_activeScenes. by eapply Hbetween.
  - destruct (Main.scanning p); [|by injection Hh as <-].
    destruct (Govee.scan _ _) as [goes_on out]. by injection Hh as <-.
Qed.

Lemma bridge_run_controller rt hs p p' :
  Main.bridge_run rt hs p = Returns p' →
  NoDup (synced_devices p) →
  registered_iff_playing (Main.controller (Main.bridge p)) →
  between_sections p →
  registered_iff_playing (Main.controller (Main.bridge p')).
Proof.
  revert p. induction hs as [|h hs IH]; intros p Hrun Hnd Hreg Hb; simpl in Hrun.
  - by injection Hrun as <-.
  - destruct (Main.happen rt p h) as [p1|] eqn:Hh; [|done].
    destruct (happen_controller rt p h p1 Hh Hnd Hreg Hb) as (? & ? & ?).
    by apply (IH p1).
Qed.

(** X19. When no two synchronizations name the same Govee device:
    whatever happens to the bridge after its start, in whatever order
    its goroutines take their steps (the two critical sections of
    [SetScene] are steps of their own), a device is registered with the
    controller exactly when a loop plays for it, and no device has two
    loops that play. *)
Theorem bridge_one_loop_per_device (rt : Runtime) (hs : list Main.Happening)
    (multicastIP : string) (syncs : list Config.Synchronization) (p : Main.Program) :
  NoDup (map Config.GoveeDeviceId syncs) →
  Main.bridge_run rt hs (Main.started multicastIP syncs) = Returns p →
  let w := Main.controller (Main.bridge p) in
  (∀ d, IsActive d w = true ↔ ∃ c, playing w c d) ∧
  (∀ d c c', playing w c d → playing w c' d → c = c').
Proof.
  intros Hnd Hrun w.
  assert (registered_iff_playing w) as Hreg.
  { apply (bridge_run_controller rt hs _ p Hrun).
    - unfold synced_devices, Main.started; simpl. by rewrite <- list_fmap_compose.
    - apply Inv_init.
    - intros i sync scene Hi. unfold Main.started in Hi; simpl in Hi.
      rewrite list_lookup_fmap in Hi. by destruct (syncs !! i). }
  split.
  - intros d. unfold IsActive. split.
    + destruct (activeScenes w !! d) as [c|] eqn:E; [|done].
      intros _. exists c. by apply Hreg.
    + intros [c Hc]. apply Hreg in Hc. by rewrite Hc.
  - intros d c c' Hc Hc'. apply Hreg in Hc, Hc'. congruence.
Qed.

Lemma bridge_one_loop_per_device_witness :
  NoDup (map Config.GoveeDeviceId [lamp_sync]) ∧
  ∀ rt : Runtime,
    IsActive "lamp" (SetScene "lamp" three_colours NewSceneController) = true
    ↔ ∃ c, playing (SetScene "lamp" three_colours NewSceneController) c "lamp".
Proof.
  split; [repeat constructor; by intros ?%elem_of_nil|]. intros rt.
  apply (bridge_one_loop_per_device rt
           [Main.SyncRuns 0 scene_turn; Main.SyncRuns 0 scene_turn; Main.SyncRuns 0 scene_turn]
           "239.255.255.250" [lamp_sync]
           (Main.mkProgram
              (Main.mkBridge (SetScene "lamp" three_colours NewSceneController)
                             (Govee.NewClient "239.255.255.250") [])
              [(lamp_sync, Main.AtTimer)] true)).
  - repeat constructor. by intros ?%elem_of_nil.
  - vm_compute. reflexivity.
Defined.

(** With two synchronizations for one device the two goroutines can
    both pass [IsActive] and [StopScene] before either registers its
    context: the second registration replaces the first, whose loop
    goes on playing with nobody left to cancel it. *)
Lemma shared_device_orphans_a_loop :
  ∀ rt : Runtime, ∃ p,
    Main.bridge_run rt
      [Main.SyncRuns 0 scene_turn; Main.SyncRuns 1 scene_turn;
       Main.SyncRuns 0 scene_turn; Main.SyncRuns 1 scene_turn;
       Main.SyncRuns 0 scene_turn; Main.SyncRuns 1 scene_turn]
      (Main.started "239.255.255.250" [lamp_sync; lamp_sync]) = Returns p ∧
    playing (Main.controller (Main.bridge p)) 0 "lamp" ∧
    playing (Main.controller (Main.bridge p)) 1 "lamp" ∧
    activeScenes (Main.controller (Main.bridge p)) !! "lamp" = Some 1%nat.
Proof.
  intros rt. eexists. split; [vm_compute; reflexivity|].
  split_and!; [by eexists | by eexists | done].
Qed.
